(** * Batch-gradient-descent logistic regression (LogisticRegression.c)

    A shallow embedding of [initNode], [normalize], [activate],
    [computeCost] and the gradient-descent loop of [main].

    - [unsigned int] values are integers in [Z] reduced modulo [2^32]
      wherever the C code computes with them.
    - [double] is an abstract arithmetic ([Double]); two instances are
      given: IEEE binary64 ([PrimFloat], with the C library's [exp] and
      [log] supplied separately) and the exact reals.
    - Buffers obtained from [malloc] are lists; a read or a write outside a
      buffer, or through an indeterminate pointer, is undefined behaviour
      and is reported as [Undefined]. *)

From Stdlib Require Import ZArith List Lia Reals Lra Floats.
From stdpp Require Import base list.

Open Scope Z_scope.

(** ** Unsigned 32-bit arithmetic *)

Module UInt.
Definition modulus : Z := 2 ^ 32.
Definition wrap (x : Z) : Z := x mod modulus.
Definition add (x y : Z) : Z := wrap (x + y).
Definition mul (x y : Z) : Z := wrap (x * y).
Definition in_range (x : Z) : Prop := 0 <= x < modulus.
End UInt.

(** ** Outcomes of a run *)

Inductive res (A : Type) : Type :=
| Done (a : A)
| Undefined
| OutOfFuel.
Arguments Done {A} a.
Arguments Undefined {A}.
Arguments OutOfFuel {A}.

#[export] Instance res_ret : MRet res := fun A a => Done a.
#[export] Instance res_bind : MBind res := fun A B f m =>
  match m with
  | Done a => f a
  | Undefined => Undefined
  | OutOfFuel => OutOfFuel
  end.

Definition lift {A : Type} (o : option A) : res A :=
  match o with
  | Some a => Done a
  | None => Undefined
  end.

(** [for (unsigned int i = 0; i < n; i++) body]: the counter runs over
    [0 .. n-1]; since [i < n <= 2^32 - 1] the increment never wraps. *)
Fixpoint for_from {S : Type} (k : nat) (i : Z) (body : Z -> S -> res S) (s : S)
  : res S :=
  match k with
  | O => Done s
  | Datatypes.S k' => s' ← body i s; for_from k' (i + 1) body s'
  end.

Definition for_loop {S : Type} (n : Z) (body : Z -> S -> res S) (s : S) : res S :=
  for_from (Z.to_nat n) 0 body s.

(** ** The arithmetic of [double] *)

Class Double (D : Type) : Type := {
  lit : Z -> D;              (* literals [0.0], [1.0], [50.0]; [(double) n] *)
  dadd : D -> D -> D;
  dsub : D -> D -> D;
  dmul : D -> D -> D;
  ddiv : D -> D -> D;
  dneg : D -> D;
  dexp : D -> D;             (* [exp] of <math.h> *)
  dlog : D -> D;             (* [log] of <math.h> *)
  deqb : D -> D -> bool;     (* [==] *)
  dgtb : D -> D -> bool;     (* [>] *)
  of_bits : Z -> D;          (* the double whose object representation is the
                                given 64-bit pattern *)
  of_bits_0 : of_bits 0 = lit 0
}.

(** ** Raw memory: [memset] and the view of bytes as doubles *)

(** [memset(p, c, n)] stores [(unsigned char) c] in each of [n] bytes. *)
Definition memset (c : Z) (n : Z) : list Z := repeat (c mod 256) (Z.to_nat n).

(** Little-endian value of a group of bytes. *)
Definition le_bits (bs : list Z) : Z := fold_right (fun b acc => b + 256 * acc) 0 bs.

Fixpoint chunks8 (k : nat) (bs : list Z) : list (list Z) :=
  match k with
  | O => []
  | Datatypes.S k' => take 8 bs :: chunks8 k' (drop 8 bs)
  end.

Section Model.
Context {D : Type} `{Double D}.

(** A byte block read through a [double*]. *)
Definition as_doubles (bs : list Z) : list D :=
  map (fun c => of_bits (le_bits c)) (chunks8 (length bs / 8)%nat bs).

(** A freshly allocated block of [n] doubles has indeterminate contents,
    given here by [junk]. *)
Definition malloc_doubles (junk : nat -> D) (n : Z) : list D :=
  map junk (seq 0 (Z.to_nat n)).

Definition load {A : Type} (buf : list A) (i : Z) : res A :=
  if i <? 0 then Undefined else lift (buf !! Z.to_nat i).

Definition store {A : Type} (buf : list A) (i : Z) (v : A) : res (list A) :=
  if i <? 0 then Undefined
  else if i <? Z.of_nat (length buf) then Done (<[Z.to_nat i := v]> buf)
  else Undefined.

(** ** Data structures *)

(** Modelled from the spec: [NumericAttr] is declared in
    BasicDataStructures.h, which is not among the sources; the feature
    descriptor carries a name and the [min], [max] and [mean] of its
    column. *)
Record NumericAttr : Type := mkNumericAttr {
  name : list Byte.byte;
  min : D;
  max : D;
  mean : D
}.

(** [Node]: [weights] is the block allocated by [initNode]; [inputs] is a
    pointer into the feature buffer, kept as the index of the element it
    points to; [inputs] and [output] are indeterminate ([None]) until
    [activate] assigns them. *)
Record Node : Type := mkNode {
  numFeatures : Z;
  weights : list D;
  inputs : option Z;
  output : option D
}.

Definition set_inputs (node : Node) (p : Z) : Node :=
  {| numFeatures := numFeatures node; weights := weights node;
     inputs := Some p; output := output node |}.

Definition set_output (node : Node) (o : D) : Node :=
  {| numFeatures := numFeatures node; weights := weights node;
     inputs := inputs node; output := Some o |}.

Definition set_weights (node : Node) (w : list D) : Node :=
  {| numFeatures := numFeatures node; weights := w;
     inputs := inputs node; output := output node |}.

(** [memset] on a block of doubles: the first [n / 8] doubles take the
    repeated byte as their representation; writing past the block is
    undefined. *)
Definition memset_doubles (buf : list D) (c : Z) (n : Z) : res (list D) :=
  if n <=? Z.of_nat (length buf) * 8
  then Done (as_doubles (memset c n) ++ drop (Z.to_nat (n / 8)) buf)
  else Undefined.

(** ** initNode *)

Definition sizeof_double : Z := 8.

Definition initNode (numFeatures : Z) : Node :=
  let bytes := UInt.add numFeatures 1 * sizeof_double in
  {| numFeatures := numFeatures;
     weights := as_doubles (memset 1 bytes);
     inputs := None;
     output := None |}.

(** ** normalize *)

(** [featureVec] is passed by value: the function works on its own copy,
    which is part of the state of its loops together with the buffer that
    [featureBuff] points to. *)
Definition normalize (featureVec : list NumericAttr) (featureBuff : list D)
    (numInstances : Z) : res (list NumericAttr * list D) :=
  let numFeatures := UInt.wrap (Z.of_nat (length featureVec)) in
  for_loop numFeatures (fun i '(featureVec, featureBuff) =>
    hi ← load featureVec i;
    lo ← load featureVec i;
    let range := dsub (max hi) (min lo) in
    if deqb range (lit 0) then Done (featureVec, featureBuff)
    else
      for_loop numInstances (fun j '(featureVec, featureBuff) =>
        let featureIndex := UInt.add (UInt.mul j numFeatures) i in
        v ← load featureBuff featureIndex;
        attr ← load featureVec i;
        featureBuff ← store featureBuff featureIndex
                        (ddiv (dsub v (mean attr)) range);
        Done (featureVec, featureBuff))
        (featureVec, featureBuff))
    (featureVec, featureBuff).

(** ** activate *)

Definition activate (node : Node) (featureBuff : list D) (inputArr : Z)
  : res (D * Node) :=
  linearRes ← load (weights node) (numFeatures node);
  let node := set_inputs node inputArr in
  linearRes ← for_loop (numFeatures node) (fun i linearRes =>
    w ← load (weights node) i;
    p ← lift (inputs node);
    x ← load featureBuff (p + i);
    Done (dadd linearRes (dmul w x))) linearRes;
  let out := ddiv (lit 1) (dadd (lit 1) (dexp (dneg linearRes))) in
  Done (out, set_output node out).

(** ** computeCost *)

Definition computeCost (hRes : D) (y : Z) : D :=
  if negb (y =? 0) then dneg (dlog hRes) else dneg (dlog (dsub (lit 1) hRes)).

(** ** main: the gradient-descent loop *)

Definition maxIter : Z := 200.
Definition alpha : D := lit 50.

(** The objects the loop of [main] works on.  [featureBuff] and
    [classIndexBuff] are the importer's buffers, [batchArr] and the weights
    of [node] are blocks of their own; [stdout] collects the values
    printed. *)
Record State : Type := mkState {
  numInst : Z;
  featureBuff : list D;
  classIndexBuff : list Z;
  node : Node;
  iter : Z;
  costSumPre : D;
  deltaCostSum : D;
  batchArr : list D;
  stdout : list D
}.

(** Lines 98-105: one pass over the instances. *)
Definition accumulate (numInst : Z) (featureBuff : list D)
    (classIndexBuff : list Z) (numFeatures : Z)
    (acc : D * list D * Node) : res (D * list D * Node) :=
  for_loop numInst (fun i '(costSumNew, batchArr, node) =>
    '(hRes, node) ← activate node featureBuff (UInt.mul i numFeatures);
    y ← load classIndexBuff i;
    let diff := dsub hRes (lit y) in
    let costSumNew := dadd costSumNew (computeCost hRes y) in
    batchArr ← for_loop numFeatures (fun j batchArr =>
      b ← load batchArr j;
      p ← lift (inputs node);
      x ← load featureBuff (p + j);
      store batchArr j (dadd b (dmul diff x))) batchArr;
    Done (costSumNew, batchArr, node)) acc.

(** Lines 114-115. *)
Definition update_weights (numInst : Z) (numFeatures : Z) (batchArr : list D)
    (weights : list D) : res (list D) :=
  for_loop numFeatures (fun j weights =>
    w ← load weights j;
    g ← load batchArr j;
    store weights j (dsub w (dmul (ddiv alpha (lit numInst)) g))) weights.

(** Lines 95-117: the body of the [do] statement.  [numFeatures] is the
    local of [main], the size of the feature vector as an [unsigned int]. *)
Definition iteration (numFeatures : Z) (st : State) : res State :=
  let costSumNew := lit 0 in
  batchArr ← memset_doubles (batchArr st) 0 (numFeatures * sizeof_double);
  '(costSumNew, batchArr, node) ←
    accumulate (numInst st) (featureBuff st) (classIndexBuff st) numFeatures
      (costSumNew, batchArr, node st);
  let deltaCostSum := dsub (costSumPre st) costSumNew in
  let costSumPre := costSumNew in
  w0 ← load (weights node) 0;
  weights ← update_weights (numInst st) numFeatures batchArr (weights node);
  Done {| numInst := numInst st;
          featureBuff := featureBuff st;
          classIndexBuff := classIndexBuff st;
          node := set_weights node weights;
          iter := UInt.add (iter st) 1;
          costSumPre := costSumPre;
          deltaCostSum := deltaCostSum;
          batchArr := batchArr;
          stdout := stdout st ++ [w0] |}.

(** Line 119: the controlling expression of the [do ... while]. *)
Definition continue (st : State) : bool :=
  (iter st =? 1) || (dgtb (deltaCostSum st) (lit 1) && (iter st <? maxIter)).

(** Lines 93-119.  The loop is unrolled at most [fuel] times. *)
Fixpoint gradient_descent (fuel : nat) (numFeatures : Z) (st : State)
  : res State :=
  match fuel with
  | O => OutOfFuel
  | Datatypes.S fuel' =>
      st' ← iteration numFeatures st;
      if continue st' then gradient_descent fuel' numFeatures st'
      else Done st'
  end.

(** Lines 72-86: what [main] sets up from the importer's results. *)
Definition init_state (junk : nat -> D) (numInst : Z) (featureBuff : list D)
    (classIndexBuff : list Z) (numFeatures : Z) : State :=
  {| numInst := numInst;
     featureBuff := featureBuff;
     classIndexBuff := classIndexBuff;
     node := initNode numFeatures;
     iter := 0;
     costSumPre := lit 0;
     deltaCostSum := lit 0;
     batchArr := malloc_doubles junk numFeatures;
     stdout := [] |}.

(** [main], given what the importer returns: the instance count, the
    feature buffer, the class indices and the feature descriptors. *)
Definition main (fuel : nat) (junk : nat -> D) (numInst : Z)
    (featureBuff : list D) (classIndexBuff : list Z)
    (featureVec : list NumericAttr) : res State :=
  let numFeatures := UInt.wrap (Z.of_nat (length featureVec)) in
'(_, featureBuff) ← normalize featureVec featureBuff numInst;
  gradient_descent fuel numFeatures
    (init_state junk numInst featureBuff classIndexBuff numFeatures).

End Model.

Arguments NumericAttr D : clear implicits.
Arguments Node D : clear implicits.
Arguments State D : clear implicits.

(** ** The operations as the specification words them

    Rows are lists, sums run over the row in stored order, and nothing is
    said about buffers or indices.  The theorems below relate the loops of
    the code to these. *)

Section Spec.
Context {D : Type} `{Double D}.

(** Row [j] of a row-major matrix with [nf] columns, and the matrix as the
    list of its first [n] rows. *)
Definition row (featureBuff : list D) (nf j : nat) : list D :=
  take nf (drop (j * nf) featureBuff).

Fixpoint rows (n nf : nat) (featureBuff : list D) : list (list D) :=
  match n with
  | O => []
  | S n' => take nf featureBuff :: rows n' nf (drop nf featureBuff)
  end.

(** [bias + sum_i weights[i] * featureRow[i]], summed from the left. *)
Definition weighted_sum (bias : D) (ws xs : list D) : D :=
  fold_left (fun acc wx => dadd acc (dmul wx.1 wx.2)) (zip ws xs) bias.

Definition sigmoid (linear : D) : D :=
  ddiv (lit 1) (dadd (lit 1) (dexp (dneg linear))).

(** [Activate(weights, featureRow)]; the bias is [weights[numFeatures]]. *)
Definition Activate (ws featureRow : list D) : D :=
  sigmoid (weighted_sum (default (lit 0) (ws !! length featureRow)) ws featureRow).

(** One training row: the cost term and the gradient contribution.  The
    positive class of the binary problem is class index 1. *)
Definition cost_term (hRes : D) (label : Z) : D :=
  if label =? 1 then dneg (dlog hRes) else dneg (dlog (dsub (lit 1) hRes)).

Definition row_step_with (cost : D -> Z -> D) (ws : list D)
    (acc : D * list D) (inst : list D * Z) : D * list D :=
  let hRes := Activate ws inst.1 in
  let diff := dsub hRes (lit inst.2) in
  (dadd acc.1 (cost hRes inst.2),
   zip_with (fun g x => dadd g (dmul diff x)) acc.2 inst.1).

Definition row_step : list D -> D * list D -> list D * Z -> D * list D :=
  row_step_with cost_term.

(** A whole pass over the training rows, from a zero cost and a zero
    gradient. *)
Definition pass_with (cost : D -> Z -> D) (ws : list D)
    (matrix : list (list D)) (labels : list Z) (nf : nat) : D * list D :=
  fold_left (row_step_with cost ws) (zip matrix labels)
    (lit 0, repeat (lit 0) nf).

Definition pass : list D -> list (list D) -> list Z -> nat -> D * list D :=
  pass_with cost_term.

(** Labels of a two-class problem. *)
Definition binary_labels (labels : list Z) : Prop :=
  Forall (fun y => y = 0 \/ y = 1) labels.

(** The weight update of one feature. *)
Definition descend (numInst : Z) (w g : D) : D :=
  dsub w (dmul (ddiv alpha (lit numInst)) g).

(** The value a matrix entry takes under mean-and-range normalization. *)
Definition normalized (attr : NumericAttr D) (v : D) : D :=
  let range := dsub (max attr) (min attr) in
  if deqb range (lit 0) then v else ddiv (dsub v (mean attr)) range.

(** The state after one run of the loop body, in terms of the cost [c] and
    the gradient [g] of the pass, the node [nd] left by the last call of
    [activate] and the weight [w0] printed. *)
Definition next_state (st : State D) (c : D) (g : list D) (nd : Node D)
    (w0 : D) : State D :=
  {| numInst := numInst st;
     featureBuff := featureBuff st;
     classIndexBuff := classIndexBuff st;
     node := set_weights nd
               (zip_with (descend (numInst st)) (weights (node st)) g
                ++ drop (length g) (weights (node st)));
     iter := UInt.add (iter st) 1;
     costSumPre := c;
     deltaCostSum := dsub (costSumPre st) c;
     batchArr := g;
     stdout := stdout st ++ [w0] |}.

(** Column [i] of the first [n] rows, and the mean of a list of values. *)
Definition column (featureBuff : list D) (nf n i : nat) : list D :=
  map (fun j => default (lit 0) (featureBuff !! (j * nf + i)%nat)) (seq 0 n).

Definition average (vs : list D) : D :=
  ddiv (fold_left dadd vs (lit 0)) (lit (Z.of_nat (length vs))).

(** [n] iterations of the loop body, without the loop test. *)
Fixpoint iterate (n : nat) (numFeatures : Z) (st : State D) : res (State D) :=
  match n with
  | O => Done st
  | S n' => st' ← iterate n' numFeatures st; iteration numFeatures st'
  end.

(** Consistency of the sizes the loop relies on. *)
Record well_formed (nf : Z) (st : State D) : Prop := mk_well_formed {
  wf_numFeatures : 0 <= nf;
  wf_numInst : 0 <= numInst st;
  wf_index : numInst st * nf < UInt.modulus;
  wf_featureBuff : Z.of_nat (length (featureBuff st)) = numInst st * nf;
  wf_classIndexBuff : Z.of_nat (length (classIndexBuff st)) = numInst st;
  wf_node : numFeatures (node st) = nf;
  wf_weights : Z.of_nat (length (weights (node st))) = nf + 1;
  wf_batchArr : Z.of_nat (length (batchArr st)) = nf
}.

(** What [main] needs from the importer: a matrix of [numInst] rows with
    one column per descriptor, one label per row, and sizes that fit an
    [unsigned int]. *)
Record dataset_ok (numInst : Z) (featureBuff : list D)
    (classIndexBuff : list Z) (featureVec : list (NumericAttr D)) : Prop :=
  mk_dataset_ok {
  ds_numInst : 0 <= numInst < UInt.modulus;
  ds_numFeatures : Z.of_nat (length featureVec) + 1 < UInt.modulus;
  ds_index : numInst * Z.of_nat (length featureVec) < UInt.modulus;
  ds_featureBuff :
    Z.of_nat (length featureBuff) = numInst * Z.of_nat (length featureVec);
  ds_classIndexBuff : Z.of_nat (length classIndexBuff) = numInst
}.

End Spec.

(** ** IEEE binary64 *)

Module Binary64.

(** The value denoted by a 64-bit pattern: sign, 11 exponent bits,
    52 fraction bits. *)
Definition decode (bits : Z) : spec_float :=
  let s := Z.testbit bits 63 in
  let e := Z.land (Z.shiftr bits 52) 2047 in
  let m := Z.land bits (2 ^ 52 - 1) in
  if e =? 0 then
    match m with
    | Zpos p => S754_finite s p (-1074)
    | _ => S754_zero s
    end
  else if e =? 2047 then
    if m =? 0 then S754_infinity s else S754_nan
  else
    match m + 2 ^ 52 with
    | Zpos p => S754_finite s p (e - 1075)
    | _ => S754_nan
    end.

Definition of_Z (z : Z) : float :=
  match z with
  | Z0 => 0%float
  | Zpos _ => PrimFloat.of_uint63 (Uint63.of_Z z)
  | Zneg p => PrimFloat.opp (PrimFloat.of_uint63 (Uint63.of_Z (Zpos p)))
  end.

(** [exp] and [log] are the C library's. *)
Record Libm : Type := mkLibm {
  exp : float -> float;
  log : float -> float
}.

(** A reference [exp] and [log] (argument reduction by powers of two and a
    truncated series), so that the model can be run on concrete data.  The
    results agree with the mathematical functions to within a few units in
    the last place; overflow, underflow and the special values are
    handled as the C standard's Annex F prescribes. *)
Module Reference.
Local Open Scope float_scope.

Definition ln2_hi : float := 0x1.62e42fee00000p-1.
Definition ln2_lo : float := 0x1.a39ef35793c76p-33.
Definition inv_ln2 : float := 0x1.71547652b82fep+0.
Definition round_magic : float := 0x1.8p52.
Definition exp_overflow : float := 0x1.62e42fefa39efp+9.
Definition exp_underflow : float := -0x1.74910d52d3051p+9.
Definition sqrt_half : float := 0x1.6a09e667f3bcdp-1.

Definition to_Z (f : float) : Z :=
  match Prim2SF f with
  | S754_finite s m e => ((if s then -1 else 1) * Z.shiftl (Zpos m) e)%Z
  | _ => 0%Z
  end.

Fixpoint exp_series (n : nat) (k : float) (r acc : float) : float :=
  match n with
  | O => acc
  | S n' => exp_series n' (k - 1) r (1 + r * acc / k)
  end.

Definition exp (x : float) : float :=
  if PrimFloat.is_nan x then x
  else if exp_overflow <? x then infinity
  else if x <? exp_underflow then 0
  else
    let kf := (x * inv_ln2 + round_magic) - round_magic in
    let r := (x - kf * ln2_hi) - kf * ln2_lo in
    Z.ldexp (exp_series 16 16 r 1) (to_Z kf).

Fixpoint atanh_series (n : nat) (k : float) (s2 acc : float) : float :=
  match n with
  | O => acc
  | S n' => atanh_series n' (k - 2) s2 (1 / k + s2 * acc)
  end.

Definition log (x : float) : float :=
  if PrimFloat.is_nan x then x
  else if x <? 0 then nan
  else if x =? 0 then neg_infinity
  else if x =? infinity then infinity
  else
    let (m, e) := Z.frexp x in
    let (m, e) := if m <? sqrt_half then (2 * m, (e - 1)%Z) else (m, e) in
    let s := (m - 1) / (m + 1) in
    of_Z e * ln2_hi + (2 * s * atanh_series 13 25 (s * s) 0 + of_Z e * ln2_lo).

Definition libm : Libm := {| Binary64.exp := exp; Binary64.log := log |}.

End Reference.

#[export] Instance double (m : Libm) : Double float := {|
  lit := of_Z;
  dadd := PrimFloat.add;
  dsub := PrimFloat.sub;
  dmul := PrimFloat.mul;
  ddiv := PrimFloat.div;
  dneg := PrimFloat.opp;
  dexp := exp m;
  dlog := log m;
  deqb := PrimFloat.eqb;
  dgtb := fun a b => PrimFloat.ltb b a;
  of_bits := fun bits => SF2Prim (decode bits);
  of_bits_0 := eq_refl
|}.

End Binary64.

(** ** Exact real arithmetic *)

Module Exact.

Definition value (f : spec_float) : R :=
  match f with
  | S754_finite s m e =>
      ((if s then -1 else 1) * IZR (Zpos m) * powerRZ 2 e)%R
  | _ => 0%R
  end.

#[export] Instance double : Double R := {|
  lit := IZR;
  dadd := Rplus;
  dsub := Rminus;
  dmul := Rmult;
  ddiv := Rdiv;
  dneg := Ropp;
  dexp := Rtrigo_def.exp;
  dlog := ln;
  deqb := fun a b => if Req_dec_T a b then true else false;
  dgtb := fun a b => if Rlt_dec b a then true else false;
  of_bits := fun bits => value (Binary64.decode bits);
  of_bits_0 := eq_refl
|}.

End Exact.

(** ** A small data set

    Four instances of one feature, the values 0, 0, 1, 1 with the labels
    0, 0, 1, 1, run in binary64 with the reference [exp] and [log]. *)

Module Sample.

Definition arith : Double float := Binary64.double Binary64.Reference.libm.

Definition descriptors : list (NumericAttr float) :=
  [mkNumericAttr [Byte.x66; Byte.x31] 0%float 1%float 0.5%float].

Definition matrix : list float := [0; 0; 1; 1]%float.

Definition labels : list Z := [0; 0; 1; 1].

Definition junk : nat -> float := fun _ => nan.

(** The matrix after [normalize], and the state in which [main] enters its
    loop. *)
Definition centred : list float := [-0.5; -0.5; 0.5; 0.5]%float.

Definition start : State float :=
  init_state (H := arith) junk 4 centred labels 1.

(** The state after the first run of the loop body. *)
Definition first_pass : State float :=
  Eval vm_compute in
    match iteration (H := arith) 1 start with
    | Done s => s
    | _ => start
    end.

(** A column for exact arithmetic: the values 1, 3, 5 with their minimum,
    maximum and mean. *)
Definition exact_descriptors : list (NumericAttr R) :=
  [mkNumericAttr [Byte.x66; Byte.x31] 1%R 5%R 3%R].

Definition exact_matrix : list R := [1; 3; 5]%R.

(** The same column centred, with three labels, at the entry of the loop. *)
Definition exact_start : State R :=
  init_state (H := Exact.double) (fun _ => 0%R) 3 [-1 / 2; 0; 1 / 2]%R
    [0; 1; 1] 1.

(** A constant column: two instances of the value 7. *)
Definition constant_descriptors : list (NumericAttr float) :=
  [mkNumericAttr [Byte.x66; Byte.x31] 7%float 7%float 7%float].

Definition constant_matrix : list float := [7; 7]%float.

(** A finite column whose range overflows: the values [a, -a, -a, -a] with
    [a = 1.5 * 2^1023], their minimum, maximum and exact mean [-a / 2]. *)
Definition overflow_descriptors : list (NumericAttr float) :=
  [mkNumericAttr [Byte.x66; Byte.x31]
     (-0x1.8p1023)%float 0x1.8p1023%float (-0x1.8p1022)%float].

Definition overflow_matrix : list float :=
  [0x1.8p1023; -0x1.8p1023; -0x1.8p1023; -0x1.8p1023]%float.

(** The loop entered with one class index too few. *)
Definition short_labels : State float :=
  init_state (H := arith) junk 4 centred [0; 0; 1] 1.

End Sample.

(** * Properties *)

(** ** Loads, stores and counted loops *)

Section Memory.
Context {A : Type}.

Lemma load_lookup (buf : list A) (i : Z) (v : A) :
  0 <= i -> buf !! Z.to_nat i = Some v -> load buf i = Done v.
Proof.
  intros Hi Hv. unfold load.
  destruct (Z.ltb_spec i 0); [lia|]. now rewrite Hv.
Qed.

Lemma load_in_range (buf : list A) (i : Z) :
  0 <= i < Z.of_nat (length buf) -> exists v, buf !! Z.to_nat i = Some v /\ load buf i = Done v.
Proof.
  intros Hi. destruct (lookup_lt_is_Some_2 buf (Z.to_nat i)) as [v Hv]; [lia|].
  exists v. split; [exact Hv|]. apply load_lookup; [lia|exact Hv].
Qed.

Lemma store_in_range (buf : list A) (i : Z) (v : A) :
  0 <= i < Z.of_nat (length buf) -> store buf i v = Done (<[Z.to_nat i := v]> buf).
Proof.
  intros Hi. unfold store.
  destruct (Z.ltb_spec i 0); [lia|].
  destruct (Z.ltb_spec i (Z.of_nat (length buf))); [reflexivity|lia].
Qed.

Lemma drop_cons_lookup (l : list A) (i : nat) (x : A) :
  l !! i = Some x -> drop i l = x :: drop (S i) l.
Proof.
  revert i. induction l as [|a l IH]; intros [|i] Hx; simpl in *; try discriminate.
  - now inversion Hx.
  - rewrite (IH i Hx). reflexivity.
Qed.

End Memory.

(** One step of the outcome monad. *)
Ltac step := cbn [mbind res_bind lift].

(** Case analysis on every integer comparison of the goal. *)
Ltac zbool :=
  repeat match goal with
  | |- context [Z.eqb ?a ?b] => destruct (Z.eqb_spec a b)
  | |- context [Z.leb ?a ?b] => destruct (Z.leb_spec a b)
  | |- context [Z.ltb ?a ?b] => destruct (Z.ltb_spec a b)
  end;
  cbn [andb orb negb]; first [reflexivity | lia].

Section Activation.
Context {D : Type} `{Double D}.

Lemma activate_loop (nd : Node D) (fb : list D) (p : Z) (k : nat) :
  inputs nd = Some p ->
  forall (i : Z) (acc : D),
  0 <= i -> 0 <= p ->
  (Z.to_nat i + k <= length (weights nd))%nat ->
  (Z.to_nat (p + i) + k <= length fb)%nat ->
  for_from k i (fun i linearRes =>
      w ← load (weights nd) i;
      p' ← lift (inputs nd);
      x ← load fb (p' + i);
      Done (dadd linearRes (dmul w x))) acc
  = Done (weighted_sum acc (take k (drop (Z.to_nat i) (weights nd)))
            (take k (drop (Z.to_nat (p + i)) fb))).
Proof.
  intros Hin. induction k as [|k IH]; intros i acc Hi Hp Hw Hf.
  - reflexivity.
  - destruct (load_in_range (weights nd) i) as (w & Hw1 & Hw2); [lia|].
    destruct (load_in_range fb (p + i)) as (x & Hx1 & Hx2); [lia|].
    cbn [for_from]. rewrite Hw2. step. rewrite Hin at 1. step. rewrite Hx2. step.
    rewrite IH by lia.
    rewrite (drop_cons_lookup _ _ _ Hw1), (drop_cons_lookup _ _ _ Hx1).
    replace (Z.to_nat (i + 1)) with (S (Z.to_nat i)) by lia.
    replace (Z.to_nat (p + (i + 1))) with (S (Z.to_nat (p + i))) by lia.
    reflexivity.
Qed.

Lemma weighted_sum_take (b : D) (ws xs : list D) :
  weighted_sum b (take (length xs) ws) xs = weighted_sum b ws xs.
Proof.
  unfold weighted_sum. f_equal.
  revert ws. induction xs as [|x xs IH]; intros [|w ws]; simpl; try reflexivity.
  now rewrite IH.
Qed.

Lemma activate_row (nd : Node D) (fb : list D) (p : Z) :
  0 <= numFeatures nd -> 0 <= p ->
  Z.of_nat (length (weights nd)) = numFeatures nd + 1 ->
  p + numFeatures nd <= Z.of_nat (length fb) ->
  let x := take (Z.to_nat (numFeatures nd)) (drop (Z.to_nat p) fb) in
  activate nd fb p
  = Done (Activate (weights nd) x,
          set_output (set_inputs nd p) (Activate (weights nd) x)).
Proof.
  intros Hn Hp Hw Hf x. unfold activate.
  destruct (load_in_range (weights nd) (numFeatures nd)) as (b & Hb1 & Hb2); [lia|].
  rewrite Hb2. step. unfold for_loop.
  rewrite (activate_loop (set_inputs nd p) fb p) by (cbn; first [reflexivity | lia]).
  step. cbn [set_inputs weights numFeatures Z.to_nat drop].
  replace (p + 0) with p by lia. fold x.
  assert (Hlen : length x = Z.to_nat (numFeatures nd)).
  { unfold x. rewrite length_take, length_drop. lia. }
  rewrite <- Hlen, weighted_sum_take.
  unfold Activate. rewrite Hlen, Hb1. reflexivity.
Qed.

Lemma gradient_loop (nd : Node D) (fb : list D) (p : Z) (diff : D) (k : nat) :
  inputs nd = Some p ->
  forall (j : Z) (batch : list D),
  0 <= j -> 0 <= p ->
  (Z.to_nat j + k <= length batch)%nat ->
  (Z.to_nat (p + j) + k <= length fb)%nat ->
  for_from k j (fun j batchArr =>
      b ← load batchArr j;
      p ← lift (inputs nd);
      x ← load fb (p + j);
      store batchArr j (dadd b (dmul diff x))) batch
  = Done (take (Z.to_nat j) batch
          ++ zip_with (fun g x => dadd g (dmul diff x))
               (take k (drop (Z.to_nat j) batch))
               (take k (drop (Z.to_nat (p + j)) fb))
          ++ drop (Z.to_nat j + k) batch).
Proof.
  intros Hin. induction k as [|k IH]; intros j batch Hj Hp Hb Hf.
  - cbn [for_from]. rewrite !take_0, Nat.add_0_r. cbn [zip_with app]. now rewrite take_drop.
  - destruct (load_in_range batch j) as (b & Hb1 & Hb2); [lia|].
    destruct (load_in_range fb (p + j)) as (x & Hx1 & Hx2); [lia|].
    cbn [for_from]. rewrite Hb2. step. rewrite Hin at 1. step. rewrite Hx2. step.
    rewrite store_in_range by lia. step.
    rewrite IH by (rewrite ?length_insert; lia).
    replace (Z.to_nat (j + 1)) with (S (Z.to_nat j)) by lia.
    replace (Z.to_nat (p + (j + 1))) with (S (Z.to_nat (p + j))) by lia.
    rewrite (drop_cons_lookup _ _ _ Hb1), (drop_cons_lookup _ _ _ Hx1).
    f_equal.
    rewrite drop_insert_lt by lia.
    rewrite (take_S_r _ _ (dadd b (dmul diff x))).
    2:{ apply list_lookup_insert_eq. lia. }
    rewrite take_insert_ge by lia.
    rewrite !firstn_cons. cbn [zip_with]. rewrite <- app_assoc. cbn [app].
    do 3 f_equal. rewrite drop_insert_lt by lia. f_equal. lia.
Qed.

Lemma computeCost_cost_term (h : D) (y : Z) :
  y = 0 \/ y = 1 -> computeCost h y = cost_term h y.
Proof. intros [-> | ->]; reflexivity. Qed.

Lemma wrap_small (x : Z) : 0 <= x < UInt.modulus -> UInt.wrap x = x.
Proof. intros Hx. unfold UInt.wrap. now apply Z.mod_small. Qed.

Lemma mul_small (x y : Z) : 0 <= x * y < UInt.modulus -> UInt.mul x y = x * y.
Proof. apply wrap_small. Qed.

Lemma accumulate_loop (ws fb : list D) (labels : list Z) (nf : Z) (k : nat) :
  0 <= nf -> Z.of_nat (length ws) = nf + 1 ->
  forall (i : Z) (cost : D) (batch : list D) (nd : Node D),
  0 <= i ->
  (i + Z.of_nat k) * nf <= Z.of_nat (length fb) ->
  (i + Z.of_nat k) * nf < UInt.modulus ->
  i + Z.of_nat k <= Z.of_nat (length labels) ->
  weights nd = ws -> numFeatures nd = nf -> Z.of_nat (length batch) = nf ->
  exists nd',
    for_from k i (fun i '(costSumNew, batchArr, node) =>
      '(hRes, node) ← activate node fb (UInt.mul i nf);
      y ← load labels i;
      let diff := dsub hRes (lit y) in
      let costSumNew := dadd costSumNew (computeCost hRes y) in
      batchArr ← for_loop nf (fun j batchArr =>
        b ← load batchArr j;
        p ← lift (inputs node);
        x ← load fb (p + j);
        store batchArr j (dadd b (dmul diff x))) batchArr;
      Done (costSumNew, batchArr, node)) (cost, batch, nd)
    = Done (fold_left (row_step_with computeCost ws)
              (zip (rows k (Z.to_nat nf) (drop (Z.to_nat (i * nf)) fb))
                   (take k (drop (Z.to_nat i) labels)))
              (cost, batch), nd')
    /\ weights nd' = ws /\ numFeatures nd' = nf.
Proof.
  intros Hnf Hws. induction k as [|k IH];
    intros i cost batch nd Hi Hfb Hmod Hlab Hw Hn Hb.
  - exists nd. cbn [for_from rows]. rewrite take_0. auto.
  - assert (Hp : 0 <= i * nf < UInt.modulus) by nia.
    assert (Hrow : i * nf + nf <= Z.of_nat (length fb)) by nia.
    cbn [for_from].
    rewrite (mul_small i nf Hp).
    rewrite activate_row by (rewrite ?Hw, ?Hn; lia). step.
    destruct (load_in_range labels i) as (y & Hy1 & Hy2); [lia|].
    rewrite Hy2. step. unfold for_loop.
    rewrite (gradient_loop _ fb (i * nf)); cycle 1.
    { reflexivity. } { lia. } { lia. } { lia. }
    { cbn. lia. }
    step. rewrite Hn, Hw.
    set (x := take (Z.to_nat nf) (drop (Z.to_nat (i * nf)) fb)).
    cbn [Z.to_nat]. rewrite take_0, drop_0, Nat.add_0_l. cbn [app].
    rewrite (take_ge batch) by lia. rewrite (drop_ge batch) by lia.
    rewrite app_nil_r. replace (i * nf + 0) with (i * nf) by lia. fold x.
    edestruct (IH (i + 1)) as (nd' & Heq & Hw' & Hn'); cycle -1.
    { exists nd'. split; [|auto]. etransitivity; [exact Heq|]. f_equal. f_equal.
      cbn [rows]. rewrite (drop_cons_lookup _ _ _ Hy1).
      rewrite firstn_cons. cbn [zip zip_with fold_left]. fold x.
      rewrite drop_drop.
      replace (Z.to_nat ((i + 1) * nf)) with (Z.to_nat (i * nf) + Z.to_nat nf)%nat by nia.
      replace (Z.to_nat (i + 1)) with (S (Z.to_nat i)) by lia.
      reflexivity. }
    all: try lia; try reflexivity.
    + cbn. exact Hw.
    + cbn. exact Hn.
    + rewrite length_zip_with. unfold x. rewrite length_take, length_drop. nia.
Qed.
End Activation.

Section Training.
Context {D : Type} `{Double D}.

Lemma chunks8_repeat (b : Z) (n : nat) :
  chunks8 n (repeat b (8 * n)) = repeat (repeat b 8) n.
Proof.
  induction n as [|n IH]; [reflexivity|].
  replace (8 * S n)%nat with (8 + 8 * n)%nat by lia.
  rewrite repeat_app. cbn [chunks8].
  rewrite take_app_length' by now rewrite repeat_length.
  rewrite drop_app_length' by now rewrite repeat_length.
  now rewrite IH.
Qed.

(** [memset] over a whole number of doubles. *)
Lemma as_doubles_memset (c n : Z) :
  0 <= n ->
  as_doubles (D:=D) (memset c (n * sizeof_double))
  = repeat (of_bits (le_bits (repeat (c mod 256) 8))) (Z.to_nat n).
Proof.
  intros Hn. unfold as_doubles, memset, sizeof_double.
  replace (Z.to_nat (n * 8)) with (8 * Z.to_nat n)%nat by lia.
  rewrite repeat_length.
  replace (8 * Z.to_nat n / 8)%nat with (Z.to_nat n).
  2:{ rewrite Nat.mul_comm, Nat.div_mul; lia. }
  rewrite chunks8_repeat. apply map_repeat.
Qed.

Lemma memset_doubles_zero (buf : list D) (nf : Z) :
  0 <= nf -> Z.of_nat (length buf) = nf ->
  memset_doubles buf 0 (nf * sizeof_double) = Done (repeat (lit 0) (Z.to_nat nf)).
Proof.
  intros Hnf Hlen. unfold memset_doubles.
  destruct (Z.leb_spec (nf * sizeof_double) (Z.of_nat (length buf) * 8));
    [|unfold sizeof_double in *; lia].
  rewrite as_doubles_memset by lia.
  rewrite drop_ge.
  2:{ unfold sizeof_double. rewrite Z.div_mul by lia. lia. }
  rewrite app_nil_r. f_equal. f_equal. exact of_bits_0.
Qed.

Lemma update_loop (numInst : Z) (g : list D) (k : nat) :
  forall (j : Z) (ws : list D),
  0 <= j ->
  (Z.to_nat j + k <= length ws)%nat ->
  (Z.to_nat j + k <= length g)%nat ->
  for_from k j (fun j weights =>
      w ← load weights j;
      g ← load g j;
      store weights j (dsub w (dmul (ddiv alpha (lit numInst)) g))) ws
  = Done (take (Z.to_nat j) ws
          ++ zip_with (descend numInst)
               (take k (drop (Z.to_nat j) ws)) (take k (drop (Z.to_nat j) g))
          ++ drop (Z.to_nat j + k) ws).
Proof.
  induction k as [|k IH]; intros j ws Hj Hw Hg.
  - cbn [for_from]. rewrite !take_0, Nat.add_0_r. cbn [zip_with app].
    now rewrite take_drop.
  - destruct (load_in_range ws j) as (w & Hw1 & Hw2); [lia|].
    destruct (load_in_range g j) as (x & Hx1 & Hx2); [lia|].
    cbn [for_from]. rewrite Hw2. step. rewrite Hx2. step.
    rewrite store_in_range by lia. step.
    rewrite IH by (rewrite ?length_insert; lia).
    replace (Z.to_nat (j + 1)) with (S (Z.to_nat j)) by lia.
    rewrite (drop_cons_lookup _ _ _ Hw1), (drop_cons_lookup _ _ _ Hx1).
    f_equal. rewrite drop_insert_lt by lia.
    rewrite (take_S_r _ _ (descend numInst w x)).
    2:{ apply list_lookup_insert_eq. lia. }
    rewrite take_insert_ge by lia.
    rewrite !firstn_cons. cbn [zip_with]. rewrite <- app_assoc. cbn [app].
    do 3 f_equal. rewrite drop_insert_lt by lia. f_equal. lia.
Qed.

Lemma update_weights_spec (numInst nf : Z) (g ws : list D) :
  0 <= nf -> Z.of_nat (length g) = nf -> nf <= Z.of_nat (length ws) ->
  update_weights numInst nf g ws
  = Done (zip_with (descend numInst) ws g ++ drop (Z.to_nat nf) ws).
Proof.
  intros Hnf Hg Hw. unfold update_weights, for_loop.
  rewrite update_loop by lia.
  cbn [Z.to_nat]. rewrite take_0, !drop_0, Nat.add_0_l. cbn [app].
  rewrite (take_ge g) by lia. f_equal. f_equal.
  replace (Z.to_nat nf) with (length g) by lia. apply zip_with_take_l.
Qed.

Lemma rows_length (n nf : nat) (fb : list D) : length (rows n nf fb) = n.
Proof. revert fb. induction n; intros; cbn; auto. Qed.

Lemma pass_with_length (cost : D -> Z -> D) (ws : list D) (nf : nat) :
  forall (n : nat) (fb : list D) (labels : list Z) (acc : D * list D),
  (n * nf <= length fb)%nat -> length acc.2 = nf ->
  length (fold_left (row_step_with cost ws) (zip (rows n nf fb) labels) acc).2 = nf.
Proof.
  induction n as [|n IH]; intros fb labels acc Hfb Hacc; [exact Hacc|].
  destruct labels as [|y labels]; [exact Hacc|].
  cbn [rows zip zip_with fold_left]. apply IH.
  - rewrite length_drop. lia.
  - cbn. rewrite length_zip_with, length_take. lia.
Qed.

Lemma accumulate_spec (nf : Z) (st : State D) (batch : list D) :
  well_formed nf st -> Z.of_nat (length batch) = nf ->
  exists nd : Node D,
    accumulate (numInst st) (featureBuff st) (classIndexBuff st) nf
      (lit 0, batch, node st)
    = Done (fold_left (row_step_with computeCost (weights (node st)))
              (zip (rows (Z.to_nat (numInst st)) (Z.to_nat nf) (featureBuff st))
                   (classIndexBuff st))
              (lit 0, batch), nd)
    /\ weights nd = weights (node st) /\ numFeatures nd = nf.
Proof.
  intros [Hnf Hni Hidx Hfb Hlab Hnode Hws Hbatch] Hb.
  destruct (accumulate_loop (weights (node st)) (featureBuff st)
              (classIndexBuff st) nf (Z.to_nat (numInst st)) Hnf Hws 0
              (lit 0) batch (node st))
    as (nd & Heq & Hw & Hn); try lia; try reflexivity; try assumption.
  exists nd. split; [|auto].
  cbn [Z.mul Z.to_nat drop] in Heq. rewrite !drop_0, take_ge in Heq by lia.
  exact Heq.
Qed.

Lemma iteration_spec (nf : Z) (st : State D) :
  well_formed nf st ->
  exists (nd : Node D) (w0 : D),
    let p := pass_with computeCost (weights (node st))
               (rows (Z.to_nat (numInst st)) (Z.to_nat nf) (featureBuff st))
               (classIndexBuff st) (Z.to_nat nf) in
    iteration nf st = Done (next_state st p.1 p.2 nd w0)
    /\ weights nd = weights (node st)
    /\ numFeatures nd = nf
    /\ weights (node st) !! 0%nat = Some w0
    /\ length p.2 = Z.to_nat nf.
Proof.
  intros [Hnf Hni Hidx Hfb Hlab Hnode Hws Hbatch].
  unfold iteration. rewrite memset_doubles_zero by assumption. step.
  destruct (accumulate_spec nf st (repeat (lit 0) (Z.to_nat nf)))
    as (nd & Heq & Hw & Hn); [now constructor | rewrite repeat_length; lia |].
  rewrite Heq.
  set (p := fold_left _ _ _).
  assert (Hp : length p.2 = Z.to_nat nf).
  { apply pass_with_length; [nia | apply repeat_length]. }
  destruct p as [c g] eqn:Ep. step. rewrite Hw.
  destruct (load_in_range (weights (node st)) 0) as (w0 & Hw0 & Hl0); [lia|].
  rewrite Hl0. step.
  rewrite update_weights_spec by (cbn in Hp; lia). step.
  exists nd, w0. cbv zeta. unfold pass_with. fold p. rewrite Ep. cbn [fst snd] in *.
  split; [|auto].
  unfold next_state. rewrite Hp. reflexivity.
Qed.

(** ** The loop of [main] *)

Lemma descend_length (n : Z) (ws g : list D) :
  (length g <= length ws)%nat ->
  length (zip_with (descend n) ws g ++ drop (length g) ws) = length ws.
Proof.
  intros Hle. rewrite length_app, length_zip_with, length_drop. lia.
Qed.

Lemma next_state_well_formed (nf : Z) (st : State D) (c : D) (g : list D)
    (nd : Node D) (w0 : D) :
  well_formed nf st -> numFeatures nd = nf -> length g = Z.to_nat nf ->
  well_formed nf (next_state st c g nd w0).
Proof.
  intros [Hnf Hni Hidx Hfb Hlab Hnode Hws Hbatch] Hn Hg.
  constructor; cbn; try assumption; try lia.
  rewrite descend_length; lia.
Qed.

Lemma iteration_well_formed (nf : Z) (st : State D) :
  well_formed nf st ->
  exists st', iteration nf st = Done st' /\ well_formed nf st'
    /\ iter st' = UInt.add (iter st) 1
    /\ featureBuff st' = featureBuff st
    /\ classIndexBuff st' = classIndexBuff st
    /\ numInst st' = numInst st.
Proof.
  intros Hwf. destruct (iteration_spec nf st Hwf) as (nd & w0 & Hit & Hw & Hn & _ & Hg).
  cbv zeta in *. eexists. split; [exact Hit|]. split; [|now cbn].
  now apply next_state_well_formed.
Qed.

(** What the loop body leaves alone, whatever the state it starts from. *)
Lemma iteration_frame (nf : Z) (st st' : State D) :
  iteration nf st = Done st' ->
  iter st' = UInt.add (iter st) 1
  /\ featureBuff st' = featureBuff st
  /\ classIndexBuff st' = classIndexBuff st
  /\ numInst st' = numInst st
  /\ deltaCostSum st' = dsub (costSumPre st) (costSumPre st')
  /\ length (stdout st') = S (length (stdout st)).
Proof.
  unfold iteration. intros Hrun.
  repeat match type of Hrun with
  | mbind _ ?m = _ =>
      destruct m as [?| |]; try discriminate; cbn [mbind res_bind] in Hrun
  | (let '(_, _) := ?p in _) = _ => destruct p
  end.
  inversion Hrun; subst st'. cbn. rewrite length_app. cbn. repeat split; lia.
Qed.

Lemma iterate_front (n : nat) (nf : Z) (st : State D) :
  iterate (S n) nf st = (st1 ← iteration nf st; iterate n nf st1).
Proof.
  induction n as [|n IH].
  - cbn [iterate]. step. now destruct (iteration nf st).
  - change (iterate (S (S n)) nf st)
      with (st' ← iterate (S n) nf st; iteration nf st').
    rewrite IH. destruct (iteration nf st) as [st1| |]; reflexivity.
Qed.

(** A finished run is a number of iterations of the body; the loop test
    failed after the last one and held after each one before it. *)
Lemma gradient_descent_iterate (nf : Z) (fuel : nat) :
  forall (st st' : State D),
  gradient_descent fuel nf st = Done st' ->
  exists n : nat,
    (1 <= n <= fuel)%nat /\ iterate n nf st = Done st' /\ continue st' = false
    /\ forall k : nat, (1 <= k < n)%nat ->
         exists sk, iterate k nf st = Done sk /\ continue sk = true.
Proof.
  induction fuel as [|fuel IH]; intros st st' Hrun; [discriminate|].
  cbn [gradient_descent] in Hrun.
  destruct (iteration nf st) as [st1| |] eqn:H1; try discriminate.
  cbn [mbind res_bind] in Hrun.
  destruct (continue st1) eqn:Hc.
  - destruct (IH st1 st' Hrun) as (n & Hn & Hit & Hstop & Hbefore).
    exists (S n). split; [lia|]. split; [|split; [exact Hstop|]].
    + rewrite iterate_front, H1. exact Hit.
    + intros [|k] Hk; [lia|]. rewrite iterate_front, H1. step.
      destruct k as [|k].
      * exists st1. split; [reflexivity | exact Hc].
      * apply Hbefore. lia.
  - inversion Hrun; subst st'. exists 1%nat. split; [lia|]. split; [|split; [exact Hc|]].
    + cbn [iterate]. step. exact H1.
    + intros k Hk. lia.
Qed.

Lemma add_one_small (x : Z) : 0 <= x < UInt.modulus - 1 -> UInt.add x 1 = x + 1.
Proof. intros Hx. apply wrap_small. lia. Qed.

(** From a counter in [1 .. maxIter - 1] the loop stops within
    [maxIter - iter] further iterations. *)
Lemma gradient_descent_bounded (nf : Z) (fuel : nat) :
  forall st : State D,
  well_formed nf st -> 1 <= iter st < maxIter ->
  (Z.to_nat (maxIter - iter st) <= fuel)%nat ->
  exists st', gradient_descent fuel nf st = Done st'
    /\ well_formed nf st' /\ iter st < iter st' <= maxIter.
Proof.
  unfold maxIter. induction fuel as [|fuel IH]; intros st Hwf Hit Hfuel; [lia|].
  destruct (iteration_well_formed nf st Hwf) as (st1 & H1 & Hwf1 & Hi1 & _).
  rewrite add_one_small in Hi1 by (unfold UInt.modulus; lia).
  cbn [gradient_descent]. rewrite H1. step.
  destruct (continue st1) eqn:Hc.
  - unfold continue, maxIter in Hc. rewrite Hi1 in Hc.
    destruct (Z.eqb_spec (iter st + 1) 1); [lia|]. cbn [orb] in Hc.
    apply andb_true_iff in Hc as [_ Hlt]. apply Z.ltb_lt in Hlt.
    destruct (IH st1 Hwf1) as (st' & Hrun & Hwf' & Hi'); [lia | lia |].
    exists st'. split; [exact Hrun|]. split; [exact Hwf'|]. lia.
  - exists st1. split; [reflexivity|]. split; [exact Hwf1|]. lia.
Qed.

(** Started with a zero counter, the loop runs the body at least twice and
    at most [maxIter] times. *)
Lemma gradient_descent_total (nf : Z) (fuel : nat) (st : State D) :
  well_formed nf st -> iter st = 0 -> (200 <= fuel)%nat ->
  exists s1 st', iteration nf st = Done s1 /\ continue s1 = true
    /\ gradient_descent fuel nf st = Done st'
    /\ gradient_descent (fuel - 1) nf s1 = Done st'
    /\ well_formed nf st' /\ 2 <= iter st' <= maxIter.
Proof.
  intros Hwf Hit Hfuel.
  destruct (iteration_well_formed nf st Hwf) as (s1 & H1 & Hwf1 & Hi1 & _).
  rewrite Hit in Hi1. change (UInt.add 0 1) with 1 in Hi1.
  assert (Hc : continue s1 = true).
  { unfold continue. rewrite Hi1. reflexivity. }
  destruct (gradient_descent_bounded nf (fuel - 1) s1 Hwf1) as (st' & Hrun & Hwf' & Hi').
  { unfold maxIter. lia. } { unfold maxIter. lia. }
  exists s1, st'. split; [exact H1|]. split; [exact Hc|].
  split; [|split; [exact Hrun|split; [exact Hwf'|lia]]].
  destruct fuel as [|fuel]; [lia|].
  cbn [gradient_descent]. rewrite H1. step. rewrite Hc.
  replace (S fuel - 1)%nat with fuel in Hrun by lia. exact Hrun.
Qed.

Lemma iterate_counter (nf : Z) (n : nat) :
  forall (st st' : State D),
  iterate n nf st = Done st' -> iter st + Z.of_nat n < UInt.modulus -> 0 <= iter st ->
  iter st' = iter st + Z.of_nat n.
Proof.
  induction n as [|n IH]; intros st st' Hrun Hsmall Hpos.
  - inversion Hrun. lia.
  - cbn [iterate] in Hrun.
    destruct (iterate n nf st) as [sn| |] eqn:Hn; try discriminate.
    cbn [mbind res_bind] in Hrun.
    specialize (IH st sn Hn ltac:(lia) Hpos).
    apply iteration_frame in Hrun as (Hi & _).
    rewrite Hi, IH, add_one_small; lia.
Qed.

(** ** normalize *)

Lemma index_inj (nf r c r' c' : Z) :
  0 <= c < nf -> 0 <= c' < nf -> r * nf + c = r' * nf + c' -> r = r' /\ c = c'.
Proof.
  intros Hc Hc' Heq.
  assert (r = r') by nia. subst r'. split; [reflexivity | lia].
Qed.

Lemma add_mul_small (j nf i : Z) :
  0 <= j * nf + i < UInt.modulus -> 0 <= j * nf ->
  UInt.add (UInt.mul j nf) i = j * nf + i.
Proof.
  intros Hidx Hj. unfold UInt.add, UInt.mul, UInt.wrap.
  rewrite Zplus_mod_idemp_l. apply Z.mod_small. exact Hidx.
Qed.

Lemma normalize_rows (fv : list (NumericAttr D)) (attr : NumericAttr D)
    (range : D) (nf i : Z) (k : nat) :
  fv !! Z.to_nat i = Some attr -> 0 <= i < nf ->
  forall (j : Z) (fb : list D),
  0 <= j ->
  (j + Z.of_nat k) * nf <= Z.of_nat (length fb) ->
  (j + Z.of_nat k) * nf < UInt.modulus ->
  exists fb',
    for_from k j (fun j '(featureVec, featureBuff) =>
        let featureIndex := UInt.add (UInt.mul j nf) i in
        v ← load featureBuff featureIndex;
        attr ← load featureVec i;
        featureBuff ← store featureBuff featureIndex
                        (ddiv (dsub v (mean attr)) range);
        Done (featureVec, featureBuff)) (fv, fb)
    = Done (fv, fb')
    /\ length fb' = length fb
    /\ forall (r c : Z) (v : D),
         0 <= r -> 0 <= c < nf ->
         fb !! Z.to_nat (r * nf + c) = Some v ->
         fb' !! Z.to_nat (r * nf + c)
         = Some (if (c =? i) && (j <=? r) && (r <? j + Z.of_nat k)
                 then ddiv (dsub v (mean attr)) range else v).
Proof.
  intros Hattr Hi. induction k as [|k IH]; intros j fb Hj Hlen Hmod.
  - exists fb. split; [reflexivity|]. split; [reflexivity|].
    intros r c v Hr Hc Hv. rewrite Hv. f_equal. zbool.
  - assert (Hidx : 0 <= j * nf + i < Z.of_nat (length fb)) by nia.
    destruct (load_in_range fb (j * nf + i) Hidx) as (v0 & Hv0 & Hl0).
    destruct (IH (j + 1) (<[Z.to_nat (j * nf + i) := ddiv (dsub v0 (mean attr)) range]> fb))
      as (fb' & Hrun & Hlen' & Hpt); [lia | rewrite length_insert; lia | lia |].
    exists fb'. split; [|split].
    + cbn [for_from]. rewrite add_mul_small by nia.
      rewrite Hl0. step. rewrite (load_lookup _ _ _ (proj1 Hi) Hattr). step.
      rewrite store_in_range by lia. step. exact Hrun.
    + rewrite Hlen'. apply length_insert.
    + intros r c v Hr Hc Hv.
      destruct (Z.eq_dec (r * nf + c) (j * nf + i)) as [Heq | Hne].
      * destruct (index_inj nf r c j i Hc Hi Heq) as [-> ->].
        rewrite Hv0 in Hv. inversion Hv; subst v0.
        rewrite (Hpt j i (ddiv (dsub v (mean attr)) range)); try lia.
        2:{ apply list_lookup_insert_eq. lia. }
        f_equal. zbool.
      * assert (0 <= r * nf) by nia. assert (0 <= j * nf) by nia.
        rewrite (Hpt r c v Hr Hc).
        2:{ rewrite list_lookup_insert_ne by lia. exact Hv. }
        f_equal.
        assert (c = i -> r <> j) by (intros -> ->; lia). zbool.
Qed.

Lemma normalize_columns (fv : list (NumericAttr D)) (nf numInst : Z) (k : nat) :
  0 <= numInst -> numInst * nf < UInt.modulus ->
  forall (i : Z) (fb : list D),
  0 <= i -> i + Z.of_nat k <= nf -> nf <= Z.of_nat (length fv) ->
  numInst * nf <= Z.of_nat (length fb) ->
  exists fb',
    for_from k i (fun i '(featureVec, featureBuff) =>
        hi ← load featureVec i;
        lo ← load featureVec i;
        let range := dsub (max hi) (min lo) in
        if deqb range (lit 0) then Done (featureVec, featureBuff)
        else
          for_loop numInst (fun j '(featureVec, featureBuff) =>
            let featureIndex := UInt.add (UInt.mul j nf) i in
            v ← load featureBuff featureIndex;
            attr ← load featureVec i;
            featureBuff ← store featureBuff featureIndex
                            (ddiv (dsub v (mean attr)) range);
            Done (featureVec, featureBuff))
            (featureVec, featureBuff)) (fv, fb)
    = Done (fv, fb')
    /\ length fb' = length fb
    /\ forall (r c : Z) (attr : NumericAttr D) (v : D),
         0 <= r < numInst -> 0 <= c < nf ->
         fv !! Z.to_nat c = Some attr ->
         fb !! Z.to_nat (r * nf + c) = Some v ->
         fb' !! Z.to_nat (r * nf + c)
         = Some (if (i <=? c) && (c <? i + Z.of_nat k)
                 then normalized attr v else v).
Proof.
  intros Hni Hmod. induction k as [|k IH]; intros i fb Hi Hk Hfv Hfb.
  - exists fb. split; [reflexivity|]. split; [reflexivity|].
    intros r c attr v Hr Hc Hattr Hv. rewrite Hv. f_equal. zbool.
  - destruct (load_in_range fv i) as (a & Ha & Hla); [lia|].
    set (range := dsub (max a) (min a)).
    assert (Hcol : exists fb1,
      (if deqb range (lit 0) then Done (fv, fb)
       else for_loop numInst (fun j '(featureVec, featureBuff) =>
            let featureIndex := UInt.add (UInt.mul j nf) i in
            v ← load featureBuff featureIndex;
            attr ← load featureVec i;
            featureBuff ← store featureBuff featureIndex
                            (ddiv (dsub v (mean attr)) range);
            Done (featureVec, featureBuff)) (fv, fb)) = Done (fv, fb1)
      /\ length fb1 = length fb
      /\ forall (r c : Z) (v : D), 0 <= r < numInst -> 0 <= c < nf ->
           fb !! Z.to_nat (r * nf + c) = Some v ->
           fb1 !! Z.to_nat (r * nf + c)
           = Some (if c =? i then normalized a v else v)).
    { unfold normalized. fold range. destruct (deqb range (lit 0)).
      - exists fb. split; [reflexivity|]. split; [reflexivity|].
        intros r c v _ _ Hv. rewrite Hv. now destruct (c =? i).
      - destruct (normalize_rows fv a range nf i (Z.to_nat numInst) Ha ltac:(lia) 0 fb)
          as (fb1 & Hrun & Hlen1 & Hpt); [lia | rewrite Z2Nat.id; lia ..|].
        exists fb1. split; [exact Hrun|]. split; [exact Hlen1|].
        intros r c v Hr Hc Hv. rewrite (Hpt r c v); [|lia|lia|exact Hv].
        rewrite Z2Nat.id by lia. f_equal. zbool. }
    destruct Hcol as (fb1 & Hrun1 & Hlen1 & Hpt1).
    destruct (IH (i + 1) fb1) as (fb' & Hrun & Hlen' & Hpt); [lia | lia | lia | lia |].
    exists fb'. split; [|split].
    + cbn [for_from]. rewrite Hla. step. exact (eq_trans (f_equal (mbind _) Hrun1) Hrun).
    + lia.
    + intros r c attr v Hr Hc Hattr Hv.
      rewrite (Hpt r c attr _ Hr Hc Hattr (Hpt1 r c v Hr Hc Hv)). f_equal.
      destruct (Z.eqb_spec c i) as [-> | Hci].
      * rewrite Ha in Hattr. inversion Hattr; subst a. zbool.
      * zbool.
Qed.

Lemma normalize_spec (fv : list (NumericAttr D)) (fb : list D) (numInst : Z) :
  0 <= numInst ->
  Z.of_nat (length fv) < UInt.modulus ->
  numInst * Z.of_nat (length fv) < UInt.modulus ->
  Z.of_nat (length fb) = numInst * Z.of_nat (length fv) ->
  exists fb',
    normalize fv fb numInst = Done (fv, fb')
    /\ length fb' = length fb
    /\ forall (i j : nat) (attr : NumericAttr D) (v : D),
         fv !! i = Some attr ->
         fb !! (j * length fv + i)%nat = Some v ->
         fb' !! (j * length fv + i)%nat = Some (normalized attr v).
Proof.
  intros Hni Hnf Hmod Hlen. unfold normalize, for_loop.
  rewrite wrap_small by lia.
  destruct (normalize_columns fv (Z.of_nat (length fv)) numInst
              (Z.to_nat (Z.of_nat (length fv))) Hni Hmod 0 fb)
    as (fb' & Hrun & Hlen' & Hpt); [lia ..|].
  exists fb'. split; [exact Hrun|]. split; [exact Hlen'|].
  intros i j attr v Hattr Hv.
  pose proof (lookup_lt_Some _ _ _ Hattr) as Hi.
  pose proof (lookup_lt_Some _ _ _ Hv) as Hj.
  assert (Hjn : Z.of_nat j < numInst) by nia.
  specialize (Hpt (Z.of_nat j) (Z.of_nat i) attr v).
  replace (Z.to_nat (Z.of_nat j * Z.of_nat (length fv) + Z.of_nat i))
    with (j * length fv + i)%nat in Hpt by lia.
  rewrite Nat2Z.id in Hpt.
  rewrite Hpt; [|lia|lia|exact Hattr|exact Hv].
  f_equal. rewrite Nat2Z.id. zbool.
Qed.

(** ** Rows, labels and the pass over the data *)

Lemma rows_lookup (nf : nat) (n : nat) :
  forall (fb : list D) (j : nat),
  (j < n)%nat -> rows n nf fb !! j = Some (row fb nf j).
Proof.
  unfold row. induction n as [|n IH]; intros fb j Hj; [lia|].
  destruct j as [|j]; cbn [rows].
  - now rewrite drop_0.
  - cbn [lookup list_lookup]. rewrite IH by lia. rewrite drop_drop.
    first [reflexivity | do 3 f_equal; lia].
Qed.

Lemma fold_left_agree {A B : Type} (f g : A -> B -> A) (l : list B) :
  Forall (fun x => forall a, f a x = g a x) l ->
  forall a, fold_left f l a = fold_left g l a.
Proof.
  induction 1 as [|x l Hx _ IH]; intros a; [reflexivity|].
  cbn [fold_left]. now rewrite Hx, IH.
Qed.

Lemma pass_with_binary (ws : list D) (matrix : list (list D)) (labels : list Z)
    (nf : nat) :
  binary_labels labels ->
  pass_with computeCost ws matrix labels nf = pass ws matrix labels nf.
Proof.
  intros Hbin. unfold pass, pass_with. apply fold_left_agree.
  revert matrix. induction Hbin as [|y labels Hy _ IH]; intros [|x matrix];
    cbn [zip zip_with]; constructor; [|apply IH].
  intros a. unfold row_step_with. cbn [fst snd].
  now rewrite (computeCost_cost_term _ _ Hy).
Qed.

(** The cost kept in [costSumPre] is the one the pass has just summed. *)
Lemma iteration_cost (nf : Z) (st st' : State D) :
  iteration nf st = Done st' ->
  exists (batch0 batch : list D) (nd : Node D),
    memset_doubles (batchArr st) 0 (nf * sizeof_double) = Done batch0
    /\ accumulate (numInst st) (featureBuff st) (classIndexBuff st) nf
         (lit 0, batch0, node st) = Done (costSumPre st', batch, nd)
    /\ batchArr st' = batch.
Proof.
  unfold iteration. intros Hrun.
  destruct (memset_doubles _ _ _) as [batch0| |] eqn:Hm; try discriminate.
  cbn [mbind res_bind] in Hrun.
  destruct (accumulate _ _ _ _ _) as [[[c batch] nd]| |] eqn:Ha; try discriminate.
  cbn [mbind res_bind] in Hrun.
  repeat match type of Hrun with
  | mbind _ ?m = _ =>
      destruct m as [?| |]; try discriminate; cbn [mbind res_bind] in Hrun
  end.
  inversion Hrun; subst st'. cbn. now exists batch0, batch, nd.
Qed.

Lemma continue_iff (st : State D) :
  continue st = true
  <-> iter st = 1 \/ (dgtb (deltaCostSum st) (lit 1) = true /\ iter st < 200).
Proof.
  unfold continue, maxIter.
  rewrite orb_true_iff, andb_true_iff, Z.eqb_eq, Z.ltb_lt. reflexivity.
Qed.

Lemma gradient_descent_frame (nf : Z) (fuel : nat) :
  forall st st' : State D,
  gradient_descent fuel nf st = Done st' ->
  featureBuff st' = featureBuff st
  /\ classIndexBuff st' = classIndexBuff st
  /\ numInst st' = numInst st.
Proof.
  induction fuel as [|fuel IH]; intros st st' Hrun; [discriminate|].
  cbn [gradient_descent] in Hrun.
  destruct (iteration nf st) as [s1| |] eqn:H1; try discriminate.
  cbn [mbind res_bind] in Hrun.
  apply iteration_frame in H1 as (_ & Hfb & Hlab & Hni & _).
  destruct (continue s1).
  - destruct (IH s1 st' Hrun) as (-> & -> & ->). auto.
  - inversion Hrun; subst st'. auto.
Qed.

(** The last entry of the weight block is the same after the update. *)
Lemma next_state_weights (nf : Z) (st : State D) (c : D) (g : list D)
    (nd : Node D) (w0 : D) :
  well_formed nf st -> length g = Z.to_nat nf ->
  let ws' := weights (node (next_state st c g nd w0)) in
  ws' !! Z.to_nat nf = weights (node st) !! Z.to_nat nf
  /\ forall (k : nat) (w x : D),
       weights (node st) !! k = Some w -> g !! k = Some x ->
       ws' !! k = Some (descend (numInst st) w x).
Proof.
  intros [Hnf Hni Hidx Hfb Hlab Hnode Hws Hbatch] Hg. cbn. split.
  - rewrite lookup_app_r; rewrite length_zip_with; [|lia].
    rewrite lookup_drop. f_equal. lia.
  - intros k w x Hw Hx. pose proof (lookup_lt_Some _ _ _ Hx).
    rewrite lookup_app_l by (rewrite length_zip_with; lia).
    rewrite lookup_zip_with, Hw, Hx. reflexivity.
Qed.

Lemma gradient_descent_bias (nf : Z) (fuel : nat) :
  forall st st' : State D,
  well_formed nf st ->
  gradient_descent fuel nf st = Done st' ->
  weights (node st') !! Z.to_nat nf = weights (node st) !! Z.to_nat nf.
Proof.
  induction fuel as [|fuel IH]; intros st st' Hwf Hrun; [discriminate|].
  cbn [gradient_descent] in Hrun.
  destruct (iteration_spec nf st Hwf) as (nd & w0 & Hit & Hw & Hn & _ & Hg).
  cbv zeta in Hit, Hg. rewrite Hit in Hrun. cbn [mbind res_bind] in Hrun.
  set (s1 := next_state _ _ _ _ _) in *.
  assert (Hwf1 : well_formed nf s1) by now apply next_state_well_formed.
  assert (Hb : weights (node s1) !! Z.to_nat nf = weights (node st) !! Z.to_nat nf)
    by now apply next_state_weights.
  destruct (continue s1).
  - rewrite (IH s1 st' Hwf1 Hrun). exact Hb.
  - inversion Hrun; subst st'. exact Hb.
Qed.

(** ** [main] as a whole *)

Lemma init_state_well_formed (junk : nat -> D) (ni nf : Z)
    (fb : list D) (labels : list Z) :
  0 <= ni -> 0 <= nf -> nf + 1 < UInt.modulus ->
  ni * nf < UInt.modulus ->
  Z.of_nat (length fb) = ni * nf ->
  Z.of_nat (length labels) = ni ->
  well_formed nf (init_state junk ni fb labels nf).
Proof.
  intros Hni Hnf Hsmall Hidx Hfb Hlab.
  constructor; unfold init_state, initNode;
    cbn [numInst featureBuff classIndexBuff node batchArr weights numFeatures];
    try assumption.
  - reflexivity.
  - rewrite add_one_small by lia. rewrite as_doubles_memset by lia.
    rewrite repeat_length. lia.
  - unfold malloc_doubles. rewrite length_map, length_seq. lia.
Qed.

Lemma main_setup (fuel : nat) (junk : nat -> D) (numInst : Z) (fb : list D)
    (labels : list Z) (fv : list (NumericAttr D)) :
  dataset_ok numInst fb labels fv ->
  let nf := Z.of_nat (length fv) in
  exists fb',
    normalize fv fb numInst = Done (fv, fb')
    /\ main fuel junk numInst fb labels fv
       = gradient_descent fuel nf (init_state junk numInst fb' labels nf)
    /\ well_formed nf (init_state junk numInst fb' labels nf).
Proof.
  intros [[Hni _] Hnf Hidx Hfb Hlab] nf.
  destruct (normalize_spec fv fb numInst Hni ltac:(lia) Hidx Hfb)
    as (fb' & Hrun & Hlen & _).
  exists fb'. split; [exact Hrun|]. split.
  - unfold main. rewrite Hrun. step. rewrite wrap_small by lia. reflexivity.
  - apply init_state_well_formed; unfold nf; try lia.
Qed.

(** More fuel does not change a finished run. *)
Lemma gradient_descent_more_fuel (nf : Z) (fuel : nat) :
  forall (st st' : State D) (fuel' : nat),
  gradient_descent fuel nf st = Done st' -> (fuel <= fuel')%nat ->
  gradient_descent fuel' nf st = Done st'.
Proof.
  induction fuel as [|fuel IH]; intros st st' fuel' Hrun Hle; [discriminate|].
  destruct fuel' as [|fuel']; [lia|].
  cbn [gradient_descent] in *.
  destruct (iteration nf st) as [s1| |]; try discriminate.
  cbn [mbind res_bind] in *.
  destruct (continue s1); [|exact Hrun].
  apply IH; [exact Hrun | lia].
Qed.

(** A run that starts with a zero counter goes through the body twice
    before anything else can happen. *)
Lemma gradient_descent_twice (nf : Z) (fuel : nat) (st st' : State D) :
  iter st = 0 ->
  gradient_descent fuel nf st = Done st' ->
  exists (s1 s2 : State D) (n : nat),
    iteration nf st = Done s1 /\ iter s1 = 1 /\ continue s1 = true
    /\ iteration nf s1 = Done s2
    /\ iterate n nf s2 = Done st'.
Proof.
  intros Hit Hrun. destruct fuel as [|fuel]; [discriminate|].
  cbn [gradient_descent] in Hrun.
  destruct (iteration nf st) as [s1| |] eqn:H1; try discriminate.
  cbn [mbind res_bind] in Hrun.
  destruct (iteration_frame nf st s1 H1) as (Hi1 & _).
  rewrite Hit in Hi1. change (UInt.add 0 1) with 1 in Hi1.
  assert (Hc : continue s1 = true) by (unfold continue; now rewrite Hi1).
  rewrite Hc in Hrun. destruct fuel as [|fuel]; [discriminate|].
  cbn [gradient_descent] in Hrun.
  destruct (iteration nf s1) as [s2| |] eqn:H2; try discriminate.
  cbn [mbind res_bind] in Hrun.
  destruct (continue s2).
  - destruct (gradient_descent_iterate nf fuel s2 st' Hrun) as (n & _ & Hn & _).
    now exists s1, s2, n.
  - inversion Hrun; subst st'. now exists s1, s2, 0%nat.
Qed.

(** ** The per-iteration pass, the stopping rule and the weight update *)

(** C1.  One run of the loop body visits the rows in stored order
    [0 .. numInst-1] (row [j] is the [j]-th slice of the feature buffer);
    for each it takes [hRes = Activate(weights, row_j)] and
    [diff = hRes - label_j], adds [-log hRes] to the cost for the positive
    class and [-log (1 - hRes)] otherwise, and adds [diff * row_j[k]] to
    [gradient[k]] for every feature [k]; both accumulators start the
    iteration at zero, whatever the previous iteration left in them. *)
Theorem iteration_accumulates (nf : Z) (st : State D) :
  well_formed nf st -> binary_labels (classIndexBuff st) ->
  let n := Z.to_nat (numInst st) in
  let matrix := rows n (Z.to_nat nf) (featureBuff st) in
  (forall j : nat, (j < n)%nat ->
     matrix !! j = Some (row (featureBuff st) (Z.to_nat nf) j))
  /\ exists st',
       iteration nf st = Done st'
       /\ (costSumPre st', batchArr st')
          = fold_left (row_step (weights (node st)))
              (zip matrix (classIndexBuff st))
              (lit 0, repeat (lit 0) (Z.to_nat nf)).
Proof.
  intros Hwf Hbin n matrix. split.
  - intros j Hj. now apply rows_lookup.
  - destruct (iteration_spec nf st Hwf) as (nd & w0 & Hit & _).
    cbv zeta in Hit. eexists. split; [exact Hit|].
    cbn [next_state costSumPre batchArr].
    rewrite (pass_with_binary _ _ _ _ Hbin). unfold pass, pass_with.
    now destruct (fold_left _ _ _).
Qed.

(** C2.  After the pass the body sets [deltaCostSum] to the previous cost
    minus the new one and keeps the new cost in [costSumPre]; the loop goes
    round again exactly when the count of completed iterations is 1, or
    the delta exceeds 1.0 and the count is below 200.  With a delta that
    does not exceed 1.0 and a count of at least 2 the loop ends with this
    iteration. *)
Theorem stopping_rule (nf : Z) (fuel : nat) (st st' : State D) :
  iteration nf st = Done st' ->
  (exists (batch0 batch : list D) (nd : Node D),
     memset_doubles (batchArr st) 0 (nf * sizeof_double) = Done batch0
     /\ accumulate (numInst st) (featureBuff st) (classIndexBuff st) nf
          (lit 0, batch0, node st) = Done (costSumPre st', batch, nd))
  /\ deltaCostSum st' = dsub (costSumPre st) (costSumPre st')
  /\ iter st' = UInt.add (iter st) 1
  /\ (continue st' = true
      <-> iter st' = 1
          \/ (dgtb (deltaCostSum st') (lit 1) = true /\ iter st' < 200))
  /\ gradient_descent (S fuel) nf st
     = (if continue st' then gradient_descent fuel nf st' else Done st')
  /\ (dgtb (deltaCostSum st') (lit 1) = false -> 2 <= iter st' ->
      gradient_descent (S fuel) nf st = Done st').
Proof.
  intros Hrun.
  destruct (iteration_cost nf st st' Hrun) as (batch0 & batch & nd & Hm & Ha & _).
  destruct (iteration_frame nf st st' Hrun) as (Hi & _ & _ & _ & Hd & _).
  assert (Hloop : gradient_descent (S fuel) nf st
                  = (if continue st' then gradient_descent fuel nf st' else Done st')).
  { cbn [gradient_descent]. rewrite Hrun. reflexivity. }
  split; [now exists batch0, batch, nd|].
  split; [exact Hd|]. split; [exact Hi|]. split; [apply continue_iff|].
  split; [exact Hloop|].
  intros Hle Hit. rewrite Hloop.
  destruct (continue st') eqn:Hc; [|reflexivity].
  apply continue_iff in Hc as [Hc | [Hc _]]; [lia | congruence].
Qed.

(** C5.  The weight update of an iteration replaces [weights[k]] by
    [weights[k] - alpha / numInst * gradient[k]] for every feature [k];
    the gradient has [numFeatures] entries, none for the bias, and the bias
    slot [weights[numFeatures]] holds the same value after the iteration,
    and after any number of iterations of the loop. *)
Theorem weight_update_spares_bias (nf : Z) (st : State D) :
  well_formed nf st ->
  exists st',
    iteration nf st = Done st'
    /\ length (batchArr st') = Z.to_nat nf
    /\ batchArr st' !! Z.to_nat nf = None
    /\ (forall (k : nat) (w g : D),
          weights (node st) !! k = Some w -> batchArr st' !! k = Some g ->
          weights (node st') !! k
          = Some (dsub w (dmul (ddiv alpha (lit (numInst st))) g)))
    /\ weights (node st') !! Z.to_nat nf = weights (node st) !! Z.to_nat nf
    /\ length (weights (node st')) = length (weights (node st))
    /\ forall (fuel : nat) (st'' : State D),
         gradient_descent fuel nf st = Done st'' ->
         weights (node st'') !! Z.to_nat nf = weights (node st) !! Z.to_nat nf.
Proof.
  intros Hwf.
  destruct (iteration_spec nf st Hwf) as (nd & w0 & Hit & Hw & Hn & _ & Hg).
  cbv zeta in Hit, Hg.
  set (p := pass_with _ _ _ _ _) in *.
  destruct (next_state_weights nf st p.1 p.2 nd w0 Hwf Hg) as (Hbias & Hupd).
  eexists. split; [exact Hit|].
  split; [exact Hg|]. split; [apply lookup_ge_None_2; cbn; lia|].
  split; [exact Hupd|]. split; [exact Hbias|]. split.
  - cbn. destruct Hwf. apply descend_length. lia.
  - intros fuel st'' Hrun. now apply (gradient_descent_bias nf fuel).
Qed.

(** C3.  [normalize] rewrites the feature buffer in place: for the column
    of every descriptor, with [range = max - min], a value [v] of the
    column stays [v] when [range == 0] and becomes [(v - mean) / range]
    otherwise; the buffer keeps its size and the descriptors are
    returned as they were passed. *)
Theorem normalize_in_place (fv : list (NumericAttr D)) (fb : list D)
    (numInst : Z) :
  0 <= numInst ->
  Z.of_nat (length fv) < UInt.modulus ->
  numInst * Z.of_nat (length fv) < UInt.modulus ->
  Z.of_nat (length fb) = numInst * Z.of_nat (length fv) ->
  exists fb',
    normalize fv fb numInst = Done (fv, fb')
    /\ length fb' = length fb
    /\ forall (i j : nat) (attr : NumericAttr D) (v : D),
         fv !! i = Some attr ->
         fb !! (j * length fv + i)%nat = Some v ->
         let range := dsub (max attr) (min attr) in
         fb' !! (j * length fv + i)%nat
         = Some (if deqb range (lit 0) then v
                 else ddiv (dsub v (mean attr)) range).
Proof.
  intros Hni Hnf Hmod Hlen.
  destruct (normalize_spec fv fb numInst Hni Hnf Hmod Hlen) as (fb' & Hrun & Hl & Hpt).
  exists fb'. split; [exact Hrun|]. split; [exact Hl|].
  intros i j attr v Hattr Hv. exact (Hpt i j attr v Hattr Hv).
Qed.


(** C6.  On every well-sized data set [main] comes to an end: 200 rounds of
    fuel are enough, the body has run [n] times with [2 <= n <= 200], and
    the state [main] ends in is the state right after the [n]-th run of the
    body, the first at which the loop test fails, so the weights are not
    written again once the test has failed. *)
Theorem training_terminates (fuel : nat) (junk : nat -> D) (ni : Z)
    (fb : list D) (labels : list Z) (fv : list (NumericAttr D)) :
  dataset_ok ni fb labels fv -> (200 <= fuel)%nat ->
  let nf := Z.of_nat (length fv) in
  exists (fb' : list D) (st : State D) (n : nat),
    let start := init_state junk ni fb' labels nf in
    normalize fv fb ni = Done (fv, fb')
    /\ main fuel junk ni fb labels fv = Done st
    /\ (2 <= n <= 200)%nat
    /\ iter st = Z.of_nat n
    /\ iterate n nf start = Done st
    /\ continue st = false
    /\ forall k : nat, (1 <= k < n)%nat ->
         exists sk, iterate k nf start = Done sk /\ continue sk = true.
Proof.
  intros Hds Hfuel nf.
  destruct (main_setup fuel junk ni fb labels fv Hds) as (fb' & Hnorm & Hmain & Hwf).
  fold nf in Hmain, Hwf.
  destruct (gradient_descent_total nf 200 _ Hwf eq_refl (le_n _))
    as (s1 & st & _ & _ & Hrun & _ & _ & Hiter).
  destruct (gradient_descent_iterate nf 200 _ st Hrun)
    as (n & Hn & Hit & Hstop & Hbefore).
  pose proof (iterate_counter nf n _ st Hit) as Hcount.
  cbn [init_state iter] in Hcount. unfold maxIter in Hiter.
  specialize (Hcount ltac:(unfold UInt.modulus; lia) ltac:(lia)).
  exists fb', st, n. cbv zeta.
  split; [exact Hnorm|].
  split; [rewrite Hmain; now apply (gradient_descent_more_fuel nf 200)|].
  split; [lia|]. split; [lia|]. split; [exact Hit|]. split; [exact Hstop|].
  exact Hbefore.
Qed.

(** C9.  The loop body, and with it the whole loop, leaves the feature
    buffer and the class indices as they were, together with the instance
    count, the feature count of the node and the bias weight; what it
    writes are the feature weights, the gradient, the cost and delta
    scalars, the counter and the node's transient fields. *)
Theorem training_preserves_data (nf : Z) (st : State D) :
  well_formed nf st ->
  (exists s1,
     iteration nf st = Done s1
     /\ featureBuff s1 = featureBuff st
     /\ classIndexBuff s1 = classIndexBuff st
     /\ numInst s1 = numInst st
     /\ numFeatures (node s1) = numFeatures (node st)
     /\ weights (node s1) !! Z.to_nat nf = weights (node st) !! Z.to_nat nf)
  /\ forall (fuel : nat) (st' : State D),
       gradient_descent fuel nf st = Done st' ->
       featureBuff st' = featureBuff st
       /\ classIndexBuff st' = classIndexBuff st
       /\ numInst st' = numInst st.
Proof.
  intros Hwf. split.
  - destruct (iteration_spec nf st Hwf) as (nd & w0 & Hit & Hw & Hn & _ & Hg).
    cbv zeta in Hit, Hg. set (p := pass_with _ _ _ _ _) in *.
    destruct (next_state_weights nf st p.1 p.2 nd w0 Hwf Hg) as (Hbias & _).
    eexists. split; [exact Hit|]. repeat (split; [reflexivity|]).
    split; [|exact Hbias]. cbn. rewrite Hn. symmetry. now destruct Hwf.
  - intros fuel st'. apply gradient_descent_frame.
Qed.

(** C10.  The loop never ends before the body has run twice.  The first
    run is unconditional, its delta is [0 - cost], and the test
    [iter == 1] sends the loop round again whatever that delta is; this
    holds of every finished run, with any amount of fuel, and on a
    well-sized data set [main] does finish, after at least two runs. *)
Theorem two_iterations_at_least (fuel : nat) (junk : nat -> D) (ni : Z)
    (fb : list D) (labels : list Z) (fv : list (NumericAttr D)) :
  dataset_ok ni fb labels fv -> (200 <= fuel)%nat ->
  let nf := Z.of_nat (length fv) in
  exists (fb' : list D) (s1 s2 st : State D) (n : nat),
    let start := init_state junk ni fb' labels nf in
    normalize fv fb ni = Done (fv, fb')
    /\ iteration nf start = Done s1
    /\ deltaCostSum s1 = dsub (lit 0) (costSumPre s1)
    /\ iter s1 = 1 /\ continue s1 = true
    /\ iteration nf s1 = Done s2
    /\ iterate n nf s2 = Done st
    /\ main fuel junk ni fb labels fv = Done st
    /\ 2 <= iter st
    /\ forall (fuel' : nat) (st' : State D),
         gradient_descent fuel' nf start = Done st' ->
         exists (n' : nat), iterate n' nf s2 = Done st'.
Proof.
  intros Hds Hfuel nf.
  destruct (main_setup fuel junk ni fb labels fv Hds) as (fb' & Hnorm & Hmain & Hwf).
  fold nf in Hmain, Hwf.
  destruct (gradient_descent_total nf fuel _ Hwf eq_refl Hfuel)
    as (s1' & st & _ & _ & Hrun & _ & _ & Hiter).
  destruct (gradient_descent_twice nf fuel (init_state junk ni fb' labels nf)
              st eq_refl Hrun)
    as (s1 & s2 & n & H1 & Hi1 & Hc1 & H2 & Hn).
  destruct (iteration_frame nf _ s1 H1) as (_ & _ & _ & _ & Hd & _).
  exists fb', s1, s2, st, n. cbv zeta.
  split; [exact Hnorm|]. split; [exact H1|]. split; [exact Hd|].
  split; [exact Hi1|]. split; [exact Hc1|]. split; [exact H2|].
  split; [exact Hn|]. split; [now rewrite Hmain|]. split; [lia|].
  intros fuel' st' Hrun'.
  destruct (gradient_descent_twice nf fuel' (init_state junk ni fb' labels nf)
              st' eq_refl Hrun')
    as (t1 & t2 & n' & G1 & _ & _ & G2 & Gn).
  rewrite H1 in G1. inversion G1; subst t1.
  rewrite H2 in G2. inversion G2; subst t2.
  now exists n'.
Qed.

End Training.

(** ** Exact arithmetic: the range of the sigmoid, and centred columns *)

#[local] Existing Instance Exact.double.

Lemma sigmoid_bounds (z : R) : (0 < sigmoid (D := R) z < 1)%R.
Proof.
  unfold sigmoid. cbn [lit ddiv dadd dexp dneg Exact.double].
  pose proof (exp_pos (- z)) as He. split.
  - apply Rdiv_lt_0_compat; lra.
  - apply (Rmult_lt_reg_r (1 + Rtrigo_def.exp (- z))); [lra|].
    unfold Rdiv. rewrite Rmult_assoc, Rinv_l by lra. lra.
Qed.

Lemma activate_Done_sigmoid {D : Type} `{Double D} (nd nd' : Node D)
    (fb : list D) (p : Z) (h : D) :
  activate nd fb p = Done (h, nd') -> exists z : D, h = sigmoid z.
Proof.
  unfold activate. intros Hrun.
  destruct (load _ _) as [b| |]; try discriminate. cbn [mbind res_bind] in Hrun.
  destruct (for_loop _ _ _) as [z| |]; try discriminate.
  cbn [mbind res_bind] in Hrun. inversion Hrun. now exists z.
Qed.

(** C4, as amended.  [activate] returns [1 / (1 + exp (-linear))] with
    [linear] the bias [weights[numFeatures]] plus the products
    [weights[i] * featureRow[i]] added in index order; this holds in any
    arithmetic.  In exact real arithmetic every value [activate] returns
    lies strictly between 0 and 1. *)
Theorem activate_sigmoid {D : Type} `{Double D} (nd : Node D) (fb : list D)
    (p : Z) :
  0 <= numFeatures nd -> 0 <= p ->
  Z.of_nat (length (weights nd)) = numFeatures nd + 1 ->
  p + numFeatures nd <= Z.of_nat (length fb) ->
  let featureRow := take (Z.to_nat (numFeatures nd)) (drop (Z.to_nat p) fb) in
  (exists bias linear : D,
     weights nd !! Z.to_nat (numFeatures nd) = Some bias
     /\ linear = fold_left (fun acc wx => dadd acc (dmul wx.1 wx.2))
                   (zip (weights nd) featureRow) bias
     /\ activate nd fb p
        = Done (ddiv (lit 1) (dadd (lit 1) (dexp (dneg linear))),
                set_output (set_inputs nd p)
                  (ddiv (lit 1) (dadd (lit 1) (dexp (dneg linear))))))
  /\ forall (ndR ndR' : Node R) (fbR : list R) (pR : Z) (h : R),
       activate ndR fbR pR = Done (h, ndR') -> (0 < h < 1)%R.
Proof.
  intros Hn Hp Hw Hf featureRow. split.
  - destruct (load_in_range (weights nd) (numFeatures nd)) as (b & Hb & _); [lia|].
    exists b, (weighted_sum b (weights nd) featureRow).
    split; [exact Hb|]. split; [reflexivity|].
    assert (Hlen : length featureRow = Z.to_nat (numFeatures nd)).
    { unfold featureRow. rewrite length_take, length_drop. lia. }
    rewrite activate_row by assumption. fold featureRow.
    unfold Activate. rewrite Hlen, Hb. reflexivity.
  - intros ndR ndR' fbR pR h Hrun.
    destruct (activate_Done_sigmoid _ _ _ _ _ Hrun) as (z & ->).
    apply sigmoid_bounds.
Qed.

Lemma fold_left_Rplus_shift (m r : R) (l : list R) :
  forall a : R,
  fold_left Rplus (map (fun v => ((v - m) / r)%R) l) a
  = (a + (fold_left Rplus l 0 - INR (length l) * m) / r)%R.
Proof.
  assert (Hacc : forall (l : list R) (a : R),
            fold_left Rplus l a = (a + fold_left Rplus l 0%R)%R).
  { clear. induction l as [|x l IH]; intros a; cbn [fold_left]; [lra|].
    rewrite (IH (a + x)%R), (IH (0 + x)%R). lra. }
  induction l as [|x l IH]; intros a.
  - cbn. lra.
  - cbn [map fold_left length]. rewrite IH, (Hacc l (0 + x)%R), S_INR.
    unfold Rdiv. lra.
Qed.

Lemma average_centred (m r : R) (l : list R) :
  r <> 0%R -> average l = m ->
  average (map (fun v => ((v - m) / r)%R) l) = 0%R.
Proof.
  unfold average. cbn [lit ddiv dadd Exact.double].
  rewrite length_map, <- INR_IZR_INZ. intros Hr Hm.
  rewrite fold_left_Rplus_shift.
  destruct l as [|x l].
  - cbn. unfold Rdiv. lra.
  - set (n := INR (length (x :: l))) in *.
    assert (Hn : n <> 0%R) by (unfold n; apply not_0_INR; discriminate).
    assert (Hs : fold_left Rplus (x :: l) 0%R = (m * n)%R).
    { rewrite <- Hm. unfold Rdiv. rewrite Rmult_assoc, Rinv_l by exact Hn. lra. }
    rewrite Hs. unfold Rdiv. replace (m * n - n * m)%R with 0%R by lra. lra.
Qed.

Lemma map_seq_lookup {A : Type} (f : nat -> A) (n : nat) :
  forall a j : nat, (j < n)%nat -> map f (seq a n) !! j = Some (f (a + j)%nat).
Proof.
  induction n as [|n IH]; intros a j Hj; [lia|].
  destruct j as [|j]; cbn [seq map lookup list_lookup].
  - now rewrite Nat.add_0_r.
  - rewrite IH by lia. do 2 f_equal. lia.
Qed.

(** An entry of [column] inside the buffer is the buffer's own entry. *)
Lemma column_lookup {D : Type} `{Double D} (fb : list D) (nf n i j : nat) :
  (j < n)%nat -> (j * nf + i < length fb)%nat ->
  column fb nf n i !! j = fb !! (j * nf + i)%nat.
Proof.
  intros Hj Hidx. unfold column. rewrite map_seq_lookup by exact Hj.
  destruct (lookup_lt_is_Some_2 fb (j * nf + i)) as [v Hv]; [exact Hidx|].
  cbn [Nat.add]. now rewrite Hv.
Qed.

(** C8, as amended.  In exact arithmetic: when the mean of a column equals
    the [mean] of its descriptor and the descriptor's range is not zero,
    [normalize] keeps the size of the buffer, replaces every value [v] of
    the column by [(v - mean) / range], and the column it leaves, read
    entry by entry from the buffer, has mean 0. *)
Theorem normalize_centres_column (fv : list (NumericAttr R)) (fb : list R)
    (ni : Z) (i : nat) (attr : NumericAttr R) :
  0 <= ni ->
  Z.of_nat (length fv) < UInt.modulus ->
  ni * Z.of_nat (length fv) < UInt.modulus ->
  Z.of_nat (length fb) = ni * Z.of_nat (length fv) ->
  fv !! i = Some attr ->
  (max attr - min attr <> 0)%R ->
  average (column fb (length fv) (Z.to_nat ni) i) = mean attr ->
  exists fb',
    normalize fv fb ni = Done (fv, fb')
    /\ length fb' = length fb
    /\ (forall (j : nat) (v : R),
          fb !! (j * length fv + i)%nat = Some v ->
          fb' !! (j * length fv + i)%nat
          = Some ((v - mean attr) / (max attr - min attr))%R)
    /\ (forall j : nat, (j < Z.to_nat ni)%nat ->
          is_Some (fb' !! (j * length fv + i)%nat)
          /\ column fb' (length fv) (Z.to_nat ni) i !! j
             = fb' !! (j * length fv + i)%nat)
    /\ average (column fb' (length fv) (Z.to_nat ni) i) = 0%R.
Proof.
  intros Hni Hnf Hmod Hlen Hattr Hrange Hmean.
  destruct (normalize_spec fv fb ni Hni Hnf Hmod Hlen) as (fb' & Hrun & Hl & Hpt).
  pose proof (lookup_lt_Some _ _ _ Hattr) as Hi.
  assert (Hnorm : forall v : R,
            normalized attr v = ((v - mean attr) / (max attr - min attr))%R).
  { intros v. unfold normalized. cbn [deqb dsub ddiv lit Exact.double].
    destruct (Req_dec_T _ _) as [He|_]; [contradiction|reflexivity]. }
  exists fb'. split; [exact Hrun|]. split; [exact Hl|]. split; [|split].
  - intros j v Hv. rewrite (Hpt i j attr v Hattr Hv). now rewrite Hnorm.
  - intros j Hj.
    assert (Hidx : (j * length fv + i < length fb')%nat) by (rewrite Hl; nia).
    split; [now apply lookup_lt_is_Some_2|].
    now apply column_lookup.
  - assert (Hcol : column fb' (length fv) (Z.to_nat ni) i
                   = map (fun v => ((v - mean attr) / (max attr - min attr))%R)
                       (column fb (length fv) (Z.to_nat ni) i)).
    { unfold column. rewrite map_map. apply map_ext_in. intros j Hj.
      apply in_seq in Hj.
      destruct (lookup_lt_is_Some_2 fb (j * length fv + i)) as [v Hv]; [nia|].
      rewrite (Hpt i j attr v Hattr Hv), Hv. cbn [default]. apply Hnorm. }
    rewrite Hcol. now apply average_centred.
Qed.

(** ** The initial weights *)

Lemma le_bits_ones : le_bits (repeat (1 mod 256) 8) = 0x0101010101010101.
Proof. reflexivity. Qed.

Lemma initNode_repeat {D : Type} `{Double D} (nf : Z) :
  0 <= nf < UInt.modulus - 1 ->
  weights (initNode nf) = repeat (of_bits 0x0101010101010101) (Z.to_nat (nf + 1)).
Proof.
  intros Hnf. unfold initNode. cbn [weights].
  rewrite add_one_small by lia. rewrite as_doubles_memset by lia.
  now rewrite le_bits_ones.
Qed.

Lemma gradient_descent_well_formed {D : Type} `{Double D} (nf : Z) (fuel : nat) :
  forall st st' : State D,
  well_formed nf st -> gradient_descent fuel nf st = Done st' ->
  well_formed nf st'.
Proof.
  induction fuel as [|fuel IH]; intros st st' Hwf Hrun; [discriminate|].
  cbn [gradient_descent] in Hrun.
  destruct (iteration_well_formed nf st Hwf) as (s1 & H1 & Hwf1 & _).
  rewrite H1 in Hrun. cbn [mbind res_bind] in Hrun.
  destruct (continue s1).
  - exact (IH s1 st' Hwf1 Hrun).
  - inversion Hrun; subst st'. exact Hwf1.
Qed.

Lemma initial_weight_exact :
  of_bits (Double := Exact.double) 0x0101010101010101 <> 0%R.
Proof.
  cbn [of_bits Exact.double].
  change (Binary64.decode 0x0101010101010101)
    with (S754_finite false 0x11010101010101 (-1059)).
  cbn [Exact.value]. intros Hz.
  apply Rmult_integral in Hz as [Hz | Hz].
  - apply Rmult_integral in Hz as [Hz | Hz]; [lra|].
    apply eq_IZR_R0 in Hz. discriminate.
  - revert Hz. apply powerRZ_NOR. lra.
Qed.

(** C7.  [initNode] fills a block of [(numFeatures + 1) * 8] bytes with the
    byte 0x01, so the node has [numFeatures + 1] weights, each the double
    whose representation is 0x0101010101010101: in binary64 the number
    [0x1.1010101010101p-1007] (about 7.7e-304), which is finite and not
    zero, and whose exact value is not zero either.  The loop keeps the
    block at that size. *)
Theorem initNode_weights (nf : Z) :
  0 <= nf < UInt.modulus - 1 ->
  memset 1 (UInt.add nf 1 * sizeof_double) = repeat 1 (Z.to_nat ((nf + 1) * 8))
  /\ (forall (D : Type) (H : Double D),
        numFeatures (initNode (D := D) nf) = nf
        /\ weights (initNode (D := D) nf)
           = repeat (of_bits 0x0101010101010101) (Z.to_nat (nf + 1))
        /\ Z.of_nat (length (weights (initNode (D := D) nf))) = nf + 1
        /\ forall (fuel : nat) (st st' : State D),
             well_formed nf st ->
             gradient_descent fuel nf st = Done st' ->
             length (weights (node st')) = length (weights (node st)))
  /\ (forall m : Binary64.Libm,
        of_bits (Double := Binary64.double m) 0x0101010101010101
        = 0x1.1010101010101p-1007%float)
  /\ PrimFloat.classify 0x1.1010101010101p-1007 = PNormal
  /\ PrimFloat.eqb 0x1.1010101010101p-1007 0 = false
  /\ of_bits (Double := Exact.double) 0x0101010101010101 <> 0%R.
Proof.
  intros Hnf. split.
  { unfold memset, sizeof_double. rewrite add_one_small by lia. reflexivity. }
  split.
  { intros D H. split; [reflexivity|]. split; [now apply initNode_repeat|]. split.
    - rewrite initNode_repeat by assumption. rewrite repeat_length. lia.
    - intros fuel st st' Hwf Hrun.
      pose proof (gradient_descent_well_formed nf fuel st st' Hwf Hrun) as Hwf'.
      destruct Hwf, Hwf'. lia. }
  split; [intros m; reflexivity|].
  split; [reflexivity|]. split; [reflexivity|].
  exact initial_weight_exact.
Qed.

(** ** Saturation in binary64 *)

(** C4, as stated, fails in binary64: with the finite weights [2.0] (bias
    [0.0]) and the finite row [20.0], [linear] is 40, [exp (-40)] is about
    4.2e-18, below half an ulp of 1, so [1 + exp (-40)] rounds to 1 and
    [activate] returns exactly 1, which is not below 1.  The same happens
    with any [exp] that underflows to zero at [-1000]. *)
Lemma activate_saturates :
  (exists (h : float) (nd' : Node float),
     activate (H := Sample.arith) (mkNode 1 [2; 0]%float None None)
       [20%float] 0 = Done (h, nd')
     /\ h = 1%float
     /\ PrimFloat.ltb h 1 = false
     /\ PrimFloat.ltb (Binary64.Reference.exp (-40)) 0x1p-54 = true)
  /\ forall m : Binary64.Libm,
       Binary64.exp m (-1000) = 0%float ->
       activate (H := Binary64.double m) (mkNode 0 [1000%float] None None) [] 0
       = Done (1%float, mkNode 0 [1000%float] (Some 0) (Some 1%float)).
Proof.
  split.
  - eexists. eexists. split; [vm_compute; reflexivity|].
    split; [reflexivity|]. split; vm_compute; reflexivity.
  - intros m Hexp. unfold activate, for_loop.
    cbv - [Binary64.exp PrimFloat.div PrimFloat.add PrimFloat.opp].
    change (- (1000))%float with (-1000)%float. rewrite Hexp. reflexivity.
Qed.

(** C8, as stated, fails in binary64.  The column [a, -a, -a, -a] with
    [a = 1.5 * 2^1023] is finite, its exact mean [-a / 2] is the
    descriptor's [mean], and its range [max - min] overflows to infinity,
    which is not zero.  [normalize] then computes [(a - mean) / range] as
    infinity over infinity: the column it leaves starts with NaN, its mean
    is NaN, and NaN is within no tolerance of 0. *)
Lemma normalize_overflow_not_centred :
  Forall (fun x => PrimFloat.is_finite x = true) Sample.overflow_matrix
  /\ average (H := Exact.double)
       (map (fun x => Exact.value (Prim2SF x)) Sample.overflow_matrix)
     = Exact.value (Prim2SF (-0x1.8p1022)%float)
  /\ deqb (Double := Sample.arith)
       (dsub (Double := Sample.arith) 0x1.8p1023%float (-0x1.8p1023)%float)
       (lit (Double := Sample.arith) 0) = false
  /\ normalize (H := Sample.arith) Sample.overflow_descriptors
       Sample.overflow_matrix 4
     = Done (Sample.overflow_descriptors, [nan; -0; -0; -0]%float)
  /\ average (H := Sample.arith)
       (column (H := Sample.arith) [nan; -0; -0; -0]%float 1 4 0) = nan
  /\ forall tol : float, PrimFloat.leb (PrimFloat.abs nan) tol = false.
Proof.
  split; [repeat constructor|].
  split.
  { unfold average, Sample.overflow_matrix.
    cbn [map fold_left length dadd ddiv lit Exact.double].
    change (Prim2SF 0x1.8p1023) with (S754_finite false 6755399441055744 971).
    change (Prim2SF (-0x1.8p1023)) with (S754_finite true 6755399441055744 971).
    change (Prim2SF (-0x1.8p1022)) with (S754_finite true 6755399441055744 970).
    cbn [Exact.value]. change (Z.of_nat 4) with 4.
    change 971 with (1 + 970).
    rewrite powerRZ_add by lra. change (powerRZ 2 1) with (2 * 1)%R.
    set (P := powerRZ 2 970). lra. }
  split; [vm_compute; reflexivity|].
  split; [vm_compute; reflexivity|].
  split; [vm_compute; reflexivity|].
  intros tol. rewrite leb_spec.
  change (Prim2SF (abs nan)) with S754_nan. reflexivity.
Qed.

(** ** The theorems at the sample data *)

#[local] Existing Instance Sample.arith.

Ltac by_computation :=
  first [ reflexivity
        | unfold UInt.modulus; lia
        | vm_compute; first [reflexivity | intro; discriminate | lia] ].

Lemma sample_start_well_formed : well_formed 1 Sample.start.
Proof. constructor; by_computation. Defined.

Lemma sample_dataset_ok :
  dataset_ok (D := float) 4 Sample.matrix Sample.labels Sample.descriptors.
Proof. constructor; by_computation. Defined.

Lemma sample_labels_binary : binary_labels Sample.labels.
Proof.
  unfold binary_labels, Sample.labels.
  repeat (constructor; [first [left; reflexivity | right; reflexivity]|]).
  constructor.
Defined.

Lemma iteration_accumulates_witness :
  well_formed 1 Sample.start /\ binary_labels (classIndexBuff Sample.start)
  /\ exists st',
       iteration 1 Sample.start = Done st'
       /\ (costSumPre st', batchArr st')
          = fold_left (row_step (weights (node Sample.start)))
              (zip (rows 4 1 (featureBuff Sample.start))
                 (classIndexBuff Sample.start))
              (lit 0, repeat (lit 0) 1).
Proof.
  split; [exact sample_start_well_formed|].
  split; [exact sample_labels_binary|].
  exact (proj2 (iteration_accumulates 1 Sample.start
                  sample_start_well_formed sample_labels_binary)).
Defined.

Lemma stopping_rule_witness :
  iteration 1 Sample.start = Done Sample.first_pass
  /\ deltaCostSum Sample.first_pass
     = dsub (costSumPre Sample.start)
         (costSumPre Sample.first_pass)
  /\ iter Sample.first_pass = 1
  /\ gradient_descent 1 1 Sample.start = OutOfFuel.
Proof.
  assert (Hrun : iteration 1 Sample.start
                 = Done Sample.first_pass) by (vm_compute; reflexivity).
  destruct (stopping_rule 1 0 Sample.start
              Sample.first_pass Hrun) as (_ & Hd & Hi & _ & Hloop & _).
  split; [exact Hrun|]. split; [exact Hd|]. split; [exact Hi|].
  rewrite Hloop. reflexivity.
Defined.

Lemma normalize_in_place_witness :
  exists fb',
    normalize Sample.descriptors Sample.matrix 4
    = Done (Sample.descriptors, fb')
    /\ length fb' = 4%nat.
Proof.
  destruct (normalize_in_place Sample.descriptors
              Sample.matrix 4) as (fb' & Hrun & Hlen & _); try by_computation.
  exists fb'. split; [exact Hrun | exact Hlen].
Defined.

Lemma activate_sigmoid_witness :
  exists bias linear : float,
    [2; 0]%float !! 1%nat = Some bias
    /\ linear = fold_left (fun acc wx => (acc + wx.1 * wx.2)%float)
                  (zip [2; 0]%float [20%float]) bias
    /\ activate (mkNode 1 [2; 0]%float None None)
         [20%float] 0
       = Done (1 / (1 + dexp (- linear)),
               set_output (set_inputs (mkNode 1 [2; 0]%float None None) 0)
                 (1 / (1 + dexp (- linear))))%float.
Proof.
  exact (proj1 (activate_sigmoid
                 (mkNode 1 [2; 0]%float None None) [20%float] 0
                 ltac:(by_computation) ltac:(by_computation)
                 ltac:(by_computation) ltac:(by_computation))).
Defined.

Lemma weight_update_spares_bias_witness :
  exists st',
    iteration 1 Sample.start = Done st'
    /\ length (batchArr st') = 1%nat
    /\ weights (node st') !! 1%nat = weights (node Sample.start) !! 1%nat.
Proof.
  destruct (weight_update_spares_bias 1 Sample.start
              sample_start_well_formed)
    as (st' & Hrun & Hlen & _ & _ & Hbias & _).
  exists st'. split; [exact Hrun|]. split; [exact Hlen | exact Hbias].
Defined.

Lemma training_terminates_witness :
  exists (st : State float) (n : nat),
    main 200 Sample.junk 4 Sample.matrix Sample.labels
      Sample.descriptors = Done st
    /\ (2 <= n <= 200)%nat /\ iter st = Z.of_nat n /\ continue st = false.
Proof.
  destruct (training_terminates 200 Sample.junk 4
              Sample.matrix Sample.labels Sample.descriptors
              sample_dataset_ok (le_n 200))
    as (fb' & st & n & _ & Hmain & Hn & Hi & _ & Hstop & _).
  exists st, n. auto.
Defined.

Lemma initNode_weights_witness :
  0 <= 2 < UInt.modulus - 1
  /\ weights (initNode 2)
     = repeat 0x1.1010101010101p-1007%float 3.
Proof.
  split; [by_computation|].
  destruct (initNode_weights 2 ltac:(by_computation)) as (_ & Hgen & _).
  destruct (Hgen float Sample.arith) as (_ & Hw & _).
  rewrite Hw. reflexivity.
Defined.

Lemma training_preserves_data_witness :
  exists s1 : State float,
    iteration 1 Sample.start = Done s1
    /\ featureBuff s1 = Sample.centred
    /\ classIndexBuff s1 = Sample.labels.
Proof.
  destruct (proj1 (training_preserves_data 1 Sample.start
                     sample_start_well_formed))
    as (s1 & Hrun & Hfb & Hlab & _).
  exists s1. split; [exact Hrun|]. split; [exact Hfb | exact Hlab].
Defined.

Lemma two_iterations_at_least_witness :
  exists st : State float,
    main 200 Sample.junk 4 Sample.matrix Sample.labels
      Sample.descriptors = Done st
    /\ 2 <= iter st.
Proof.
  destruct (two_iterations_at_least 200 Sample.junk 4
              Sample.matrix Sample.labels Sample.descriptors
              sample_dataset_ok (le_n 200))
    as (fb' & s1 & s2 & st & n & _ & _ & _ & _ & _ & _ & _ & Hmain & Hi & _).
  exists st. split; [exact Hmain | exact Hi].
Defined.

Lemma normalize_centres_column_witness :
  average (column Sample.exact_matrix 1 3 0) = 3%R
  /\ exists fb',
       normalize Sample.exact_descriptors Sample.exact_matrix 3
       = Done (Sample.exact_descriptors, fb')
       /\ length fb' = 3%nat
       /\ (forall (j : nat) (v : R),
             Sample.exact_matrix !! (j * 1 + 0)%nat = Some v ->
             fb' !! (j * 1 + 0)%nat = Some ((v - 3) / (5 - 1))%R)
       /\ (forall j : nat, (j < 3)%nat ->
             is_Some (fb' !! (j * 1 + 0)%nat)
             /\ column fb' 1 3 0 !! j = fb' !! (j * 1 + 0)%nat)
       /\ average (column fb' 1 3 0) = 0%R.
Proof.
  assert (Hmean : average (column Sample.exact_matrix 1 3 0) = 3%R).
  { unfold average, column. cbn. change (Z.of_nat 3) with 3. lra. }
  split; [exact Hmean|].
  apply (normalize_centres_column Sample.exact_descriptors Sample.exact_matrix
           3 0 (mkNumericAttr [Byte.x66; Byte.x31] 1%R 5%R 3%R));
    try by_computation.
  - cbn. lra.
  - exact Hmean.
Defined.

(** * Further properties of the code *)

Section Edges.
Context {D : Type} `{Double D}.

(** ** Counted loops that stop at a failing step *)

Lemma for_from_app {S : Type} (body : Z -> S -> res S) (k1 k2 : nat) :
  forall (i : Z) (s : S),
  for_from (k1 + k2) i body s
  = (s' ← for_from k1 i body s; for_from k2 (i + Z.of_nat k1) body s').
Proof.
  induction k1 as [|k1 IH]; intros i s.
  - cbn [Nat.add for_from]. step. f_equal. lia.
  - cbn [Nat.add for_from]. destruct (body i s) as [s1| |]; step; try reflexivity.
    rewrite IH. destruct (for_from k1 (i + 1) body s1); step; try reflexivity.
    f_equal. lia.
Qed.

Lemma for_from_fails {S : Type} (body : Z -> S -> res S) (k1 k2 : nat)
    (i : Z) (s s1 : S) :
  for_from k1 i body s = Done s1 ->
  body (i + Z.of_nat k1) s1 = Undefined ->
  for_from (k1 + Datatypes.S k2) i body s = Undefined.
Proof.
  intros H1 H2. rewrite for_from_app, H1. step. cbn [for_from].
  rewrite H2. reflexivity.
Qed.

Lemma load_out_of_range {A : Type} (buf : list A) (i : Z) :
  Z.of_nat (length buf) <= i -> load buf i = Undefined.
Proof.
  intros Hi. unfold load. destruct (Z.ltb_spec i 0); [reflexivity|].
  rewrite lookup_ge_None_2 by lia. reflexivity.
Qed.

(** ** normalize: columns that are skipped, and an empty data set *)

Lemma normalize_skips (fv : list (NumericAttr D)) (fb : list D) (ni nf : Z)
    (k : nat) :
  (ni <= 0
   \/ Forall (fun a => deqb (dsub (max a) (min a)) (lit 0) = true) fv) ->
  forall i : Z,
  0 <= i -> i + Z.of_nat k <= Z.of_nat (length fv) ->
  for_from k i (fun i '(featureVec, featureBuff) =>
      hi ← load featureVec i;
      lo ← load featureVec i;
      let range := dsub (max hi) (min lo) in
      if deqb range (lit 0) then Done (featureVec, featureBuff)
      else
        for_loop ni (fun j '(featureVec, featureBuff) =>
          let featureIndex := UInt.add (UInt.mul j nf) i in
          v ← load featureBuff featureIndex;
          attr ← load featureVec i;
          featureBuff ← store featureBuff featureIndex
                          (ddiv (dsub v (mean attr)) range);
          Done (featureVec, featureBuff))
          (featureVec, featureBuff)) (fv, fb)
  = Done (fv, fb).
Proof.
  intros Hskip. induction k as [|k IH]; intros i Hi Hk; [reflexivity|].
  destruct (load_in_range fv i) as (a & Ha & Hla); [lia|].
  cbn [for_from]. rewrite Hla. step.
  assert (Hcol : (if deqb (dsub (max a) (min a)) (lit 0) then Done (fv, fb)
                  else for_loop ni (fun j '(featureVec, featureBuff) =>
                    let featureIndex := UInt.add (UInt.mul j nf) i in
                    v ← load featureBuff featureIndex;
                    attr ← load featureVec i;
                    featureBuff ← store featureBuff featureIndex
                      (ddiv (dsub v (mean attr)) (dsub (max a) (min a)));
                    Done (featureVec, featureBuff)) (fv, fb)) = Done (fv, fb)).
  { destruct Hskip as [Hni | Hall].
    - destruct (deqb _ _); [reflexivity|]. unfold for_loop.
      replace (Z.to_nat ni) with 0%nat by lia. reflexivity.
    - rewrite Forall_lookup in Hall. now rewrite (Hall _ _ Ha). }
  exact (eq_trans (f_equal (mbind _) Hcol) (IH (i + 1) ltac:(lia) ltac:(lia))).
Qed.

Lemma wrap_le (x : Z) : 0 <= x -> 0 <= UInt.wrap x <= x.
Proof.
  intros Hx. unfold UInt.wrap, UInt.modulus. split.
  - apply Z.mod_pos_bound. lia.
  - apply Z.mod_le; lia.
Qed.

(** X1.  When every descriptor has [max - min == 0], [normalize] returns
    the buffer as it was, whatever its size and whatever the instance
    count: it never touches the buffer. *)
Theorem normalize_constant_columns (fv : list (NumericAttr D)) (fb : list D)
    (ni : Z) :
  Forall (fun a => deqb (dsub (max a) (min a)) (lit 0) = true) fv ->
  normalize fv fb ni = Done (fv, fb).
Proof.
  intros Hall. unfold normalize, for_loop.
  pose proof (wrap_le (Z.of_nat (length fv)) ltac:(lia)).
  apply normalize_skips; [now right | lia | lia].
Qed.

(** X2.  With no instances [normalize] returns the buffer as it was, for
    any descriptors and any buffer. *)
Theorem normalize_no_instances (fv : list (NumericAttr D)) (fb : list D) :
  normalize fv fb 0 = Done (fv, fb).
Proof.
  unfold normalize, for_loop.
  pose proof (wrap_le (Z.of_nat (length fv)) ltac:(lia)).
  apply normalize_skips; [left | |]; lia.
Qed.

(** ** Reads past the end of a buffer *)

(** X3.  [activate] reads [numFeatures] entries of the feature buffer from
    the row pointer on; when there is at least one feature and the buffer
    ends before the row does, the read is out of bounds and the call has
    no defined result. *)
Theorem activate_row_out_of_bounds (nd : Node D) (fb : list D) (p : Z) :
  0 < numFeatures nd -> 0 <= p ->
  Z.of_nat (length (weights nd)) = numFeatures nd + 1 ->
  Z.of_nat (length fb) < p + numFeatures nd ->
  activate nd fb p = Undefined.
Proof.
  intros Hn Hp Hw Hf. unfold activate.
  destruct (load_in_range (weights nd) (numFeatures nd)) as (b & _ & Hb); [lia|].
  rewrite Hb. step. unfold for_loop. cbn [set_inputs numFeatures].
  set (k1 := Z.to_nat (Z.of_nat (length fb) - p)).
  set (k2 := (Z.to_nat (numFeatures nd) - k1 - 1)%nat).
  replace (Z.to_nat (numFeatures nd)) with (k1 + Datatypes.S k2)%nat
    by (unfold k2, k1; lia).
  assert (Hfail : forall s1 : D,
    (w ← load (weights nd) (0 + Z.of_nat k1);
     p' ← lift (Some p);
     x ← load fb (p' + (0 + Z.of_nat k1));
     Done (dadd s1 (dmul w x))) = Undefined).
  { intros s1.
    destruct (load_in_range (weights nd) (0 + Z.of_nat k1)) as (w & _ & Hl);
      [unfold k1; lia|].
    rewrite Hl. step. rewrite load_out_of_range by (unfold k1; lia).
    reflexivity. }
  destruct (Z.le_gt_cases p (Z.of_nat (length fb))) as [Hin | Hout].
  - erewrite for_from_fails; [reflexivity | | apply Hfail].
    apply (activate_loop (set_inputs nd p) fb p k1 eq_refl 0 b);
      cbn [set_inputs weights]; unfold k1; lia.
  - erewrite (for_from_fails _ k1 k2 0 b b); [reflexivity | | apply Hfail].
    replace k1 with 0%nat by (unfold k1; lia). reflexivity.
Qed.

(** X4.  The loop body reads one class index per instance; when the class
    index buffer holds fewer than [numInst] entries (everything else being
    well sized), the body reads past its end: the iteration, and the loop
    with it, has no defined result. *)
Theorem short_label_buffer (nf : Z) (st : State D) :
  0 <= nf -> 0 <= numInst st ->
  numInst st * nf < UInt.modulus ->
  Z.of_nat (length (featureBuff st)) = numInst st * nf ->
  Z.of_nat (length (classIndexBuff st)) < numInst st ->
  numFeatures (node st) = nf ->
  Z.of_nat (length (weights (node st))) = nf + 1 ->
  Z.of_nat (length (batchArr st)) = nf ->
  iteration nf st = Undefined
  /\ forall fuel : nat, gradient_descent (Datatypes.S fuel) nf st = Undefined.
Proof.
  intros Hnf Hni Hidx Hfb Hlab Hnode Hws Hbatch.
  assert (Hacc : accumulate (numInst st) (featureBuff st) (classIndexBuff st)
                   nf (lit 0, repeat (lit 0) (Z.to_nat nf), node st)
                 = Undefined).
  { unfold accumulate. unfold for_loop at 1.
    set (k1 := length (classIndexBuff st)).
    set (k2 := (Z.to_nat (numInst st) - k1 - 1)%nat).
    replace (Z.to_nat (numInst st)) with (k1 + Datatypes.S k2)%nat
      by (unfold k2, k1; lia).
    destruct (accumulate_loop (weights (node st)) (featureBuff st)
                (classIndexBuff st) nf k1 Hnf Hws 0 (lit 0)
                (repeat (lit 0) (Z.to_nat nf)) (node st))
      as (nd & Heq & Hw & Hn);
      try (unfold k1; nia); try reflexivity; try assumption;
      try (rewrite repeat_length; lia).
    apply (for_from_fails _ k1 k2 0 _ _ Heq).
    cbv beta iota.
    assert (Hp : 0 <= (0 + Z.of_nat k1) * nf < UInt.modulus) by (unfold k1; nia).
    rewrite (mul_small _ _ Hp).
    rewrite activate_row by (rewrite ?Hw, ?Hn; unfold k1; nia). step.
    rewrite load_out_of_range by (unfold k1; lia).
    now destruct (fold_left _ _ _). }
  assert (Hit : iteration nf st = Undefined).
  { unfold iteration. rewrite memset_doubles_zero by assumption. step.
    now rewrite Hacc. }
  split; [exact Hit|]. intros fuel. cbn [gradient_descent]. now rewrite Hit.
Qed.

(** ** What a pass leaves in the node *)

Lemma accumulate_last_node (ws fb : list D) (labels : list Z) (nf : Z)
    (k : nat) (i : Z) (cost : D) (batch : list D) (nd nd' : Node D)
    (r : D * list D) :
  0 <= nf -> Z.of_nat (length ws) = nf + 1 ->
  0 <= i ->
  (i + Z.of_nat k + 1) * nf <= Z.of_nat (length fb) ->
  (i + Z.of_nat k + 1) * nf < UInt.modulus ->
  i + Z.of_nat k + 1 <= Z.of_nat (length labels) ->
  weights nd = ws -> numFeatures nd = nf -> Z.of_nat (length batch) = nf ->
  for_from (k + 1) i (fun i '(costSumNew, batchArr, node) =>
      '(hRes, node) ← activate node fb (UInt.mul i nf);
      y ← load labels i;
      let diff := dsub hRes (lit y) in
      let costSumNew := dadd costSumNew (computeCost hRes y) in
      batchArr ← for_loop nf (fun j batchArr =>
        b ← load batchArr j;
        p ← lift (inputs node);
        x ← load fb (p + j);
        store batchArr j (dadd b (dmul diff x))) batchArr;
      Done (costSumNew, batchArr, node)) (cost, batch, nd)
  = Done (r, nd') ->
  inputs nd' = Some ((i + Z.of_nat k) * nf)
  /\ output nd'
     = Some (Activate ws (take (Z.to_nat nf)
                            (drop (Z.to_nat ((i + Z.of_nat k) * nf)) fb))).
Proof.
  intros Hnf Hws Hi Hfb Hmod Hlab Hw Hn Hb Hrun.
  destruct (accumulate_loop ws fb labels nf k Hnf Hws i cost batch nd)
    as (nd1 & Heq & Hw1 & Hn1); try nia; try assumption.
  rewrite for_from_app, Heq in Hrun. cbn [mbind res_bind for_from] in Hrun.
  destruct (fold_left _ _ _) as [c g].
  assert (Hp : 0 <= (i + Z.of_nat k) * nf < UInt.modulus) by nia.
  rewrite (mul_small _ _ Hp) in Hrun.
  rewrite activate_row in Hrun by (rewrite ?Hw1, ?Hn1; nia).
  cbn [mbind res_bind] in Hrun.
  destruct (load labels _) as [y| |]; try discriminate.
  cbn [mbind res_bind] in Hrun.
  destruct (for_loop _ _ _) as [g'| |]; try discriminate.
  cbn [mbind res_bind] in Hrun. inversion Hrun; subst nd'.
  rewrite Hw1, Hn1. split; reflexivity.
Qed.

Lemma iteration_node (nf : Z) (st st' : State D) :
  iteration nf st = Done st' ->
  exists (batch0 : list D) (r : D * list D) (nd : Node D),
    memset_doubles (batchArr st) 0 (nf * sizeof_double) = Done batch0
    /\ accumulate (numInst st) (featureBuff st) (classIndexBuff st) nf
         (lit 0, batch0, node st) = Done (r, nd)
    /\ inputs (node st') = inputs nd /\ output (node st') = output nd.
Proof.
  unfold iteration. intros Hrun.
  destruct (memset_doubles _ _ _) as [batch0| |] eqn:Hm; try discriminate.
  cbn [mbind res_bind] in Hrun.
  destruct (accumulate _ _ _ _ _) as [[[c batch] nd]| |] eqn:Ha; try discriminate.
  cbn [mbind res_bind] in Hrun.
  repeat match type of Hrun with
  | mbind _ ?m = _ =>
      destruct m as [?| |]; try discriminate; cbn [mbind res_bind] in Hrun
  end.
  inversion Hrun; subst st'. cbn. now exists batch0, (c, batch), nd.
Qed.

(** X5.  After an iteration over at least one instance the node still
    points at the last row of the matrix, and its [output] is the
    activation of that row under the weights the iteration started with,
    not under the weights it has just written. *)
Theorem iteration_leaves_last_activation (nf : Z) (st : State D) :
  well_formed nf st -> 0 < numInst st ->
  exists st',
    iteration nf st = Done st'
    /\ inputs (node st') = Some ((numInst st - 1) * nf)
    /\ output (node st')
       = Some (Activate (weights (node st))
                 (row (featureBuff st) (Z.to_nat nf)
                    (Z.to_nat (numInst st - 1)))).
Proof.
  intros Hwf Hpos.
  destruct (iteration_well_formed nf st Hwf) as (st' & Hrun & _).
  exists st'. split; [exact Hrun|].
  destruct (iteration_node nf st st' Hrun)
    as (batch0 & r & nd & Hm & Hacc & -> & ->).
  destruct Hwf as [Hnf Hni Hidx Hfb Hlab Hnode Hws Hbatch].
  rewrite memset_doubles_zero in Hm by assumption. inversion Hm; subst batch0.
  unfold accumulate, for_loop in Hacc.
  replace (Z.to_nat (numInst st))
    with (Z.to_nat (numInst st - 1) + 1)%nat in Hacc by lia.
  apply (accumulate_last_node (weights (node st)) _ _ nf) in Hacc;
    try rewrite Z2Nat.id by lia; try lia; try reflexivity; try assumption.
  - rewrite Z2Nat.id in Hacc by lia.
    replace (0 + (numInst st - 1)) with (numInst st - 1) in Hacc by lia.
    unfold row. rewrite <- Z2Nat.inj_mul by lia. exact Hacc.
  - rewrite repeat_length. lia.
Qed.

(** ** [main] from end to end *)

Lemma repeat_lookup {A : Type} (x : A) (n i : nat) :
  (i < n)%nat -> repeat x n !! i = Some x.
Proof.
  revert i. induction n as [|n IH]; intros [|i] Hi; try lia; cbn.
  - reflexivity.
  - apply IH. lia.
Qed.

Lemma activate_frame (nd nd' : Node D) (fb : list D) (p : Z) (h : D) :
  activate nd fb p = Done (h, nd') ->
  weights nd' = weights nd /\ numFeatures nd' = numFeatures nd
  /\ inputs nd' = Some p /\ output nd' = Some h.
Proof.
  unfold activate. intros Hrun.
  destruct (load _ _) as [b| |]; try discriminate. cbn [mbind res_bind] in Hrun.
  destruct (for_loop _ _ _) as [z| |]; try discriminate.
  cbn [mbind res_bind] in Hrun. inversion Hrun. auto.
Qed.

Lemma accumulate_weights (fb : list D) (labels : list Z) (nf : Z) (k : nat) :
  forall (i : Z) (acc r : D * list D) (nd nd' : Node D),
  for_from k i (fun i '(costSumNew, batchArr, node) =>
      '(hRes, node) ← activate node fb (UInt.mul i nf);
      y ← load labels i;
      let diff := dsub hRes (lit y) in
      let costSumNew := dadd costSumNew (computeCost hRes y) in
      batchArr ← for_loop nf (fun j batchArr =>
        b ← load batchArr j;
        p ← lift (inputs node);
        x ← load fb (p + j);
        store batchArr j (dadd b (dmul diff x))) batchArr;
      Done (costSumNew, batchArr, node)) (acc, nd)
  = Done (r, nd') ->
  weights nd' = weights nd.
Proof.
  induction k as [|k IH]; intros i [c b] r nd nd' Hrun.
  - now inversion Hrun.
  - cbn [for_from] in Hrun.
    destruct (activate nd fb (UInt.mul i nf)) as [[h n1]| |] eqn:Ha;
      try discriminate.
    cbn [mbind res_bind] in Hrun.
    destruct (load labels i) as [y| |]; try discriminate.
    cbn [mbind res_bind] in Hrun.
    destruct (for_loop _ _ _) as [b'| |]; try discriminate.
    cbn [mbind res_bind] in Hrun.
    apply IH in Hrun. rewrite Hrun. now apply activate_frame in Ha.
Qed.

Lemma iteration_stdout (nf : Z) (st st' : State D) :
  iteration nf st = Done st' ->
  exists w0, weights (node st) !! 0%nat = Some w0 /\ stdout st' = stdout st ++ [w0].
Proof.
  unfold iteration. intros Hrun.
  destruct (memset_doubles _ _ _) as [batch0| |]; try discriminate.
  cbn [mbind res_bind] in Hrun.
  destruct (accumulate _ _ _ _ _) as [[[c batch] nd]| |] eqn:Ha; try discriminate.
  cbn [mbind res_bind] in Hrun.
  destruct (load (weights nd) 0) as [w0| |] eqn:Hl; try discriminate.
  cbn [mbind res_bind] in Hrun.
  destruct (update_weights _ _ _ _) as [ws'| |]; try discriminate.
  cbn [mbind res_bind] in Hrun. inversion Hrun; subst st'. cbn [stdout].
  exists w0. split; [|reflexivity].
  apply accumulate_weights in Ha. rewrite Ha in Hl.
  unfold load in Hl. cbn in Hl.
  destruct (weights (node st)) as [|w ws]; [discriminate|]. now inversion Hl.
Qed.

Lemma iterate_stdout (nf : Z) (n : nat) :
  forall st st' : State D,
  iterate n nf st = Done st' ->
  length (stdout st') = (length (stdout st) + n)%nat
  /\ forall w0, weights (node st) !! 0%nat = Some w0 -> (0 < n)%nat ->
       exists rest, stdout st' = stdout st ++ w0 :: rest.
Proof.
  induction n as [|n IH]; intros st st' Hrun.
  - inversion Hrun; subst st'. split; [lia|]. intros; lia.
  - rewrite iterate_front in Hrun.
    destruct (iteration nf st) as [s1| |] eqn:H1; try discriminate.
    cbn [mbind res_bind] in Hrun.
    destruct (iteration_stdout nf st s1 H1) as (w & Hw & Hout).
    destruct (IH s1 st' Hrun) as (Hlen & Hrest). split.
    + rewrite Hlen, Hout, length_app. cbn. lia.
    + intros w0 Hw0 _. rewrite Hw in Hw0. inversion Hw0; subst w0.
      destruct n as [|n].
      * inversion Hrun; subst st'. exists []. exact Hout.
      * destruct (lookup_lt_is_Some_2 (weights (node s1)) 0) as [w1 Hw1].
        { rewrite iterate_front in Hrun.
          destruct (iteration nf s1) as [s2| |] eqn:H2; try discriminate.
          destruct (iteration_stdout nf s1 s2 H2) as (w' & Hw' & _).
          apply lookup_lt_Some in Hw'. exact Hw'. }
        destruct (Hrest w1 Hw1 ltac:(lia)) as (rest & Heq).
        exists (w1 :: rest). rewrite Heq, Hout, <- app_assoc. reflexivity.
Qed.

(** A whole run of [main] on a well-sized data set. *)
Lemma main_run (fuel : nat) (junk : nat -> D) (ni : Z) (fb : list D)
    (labels : list Z) (fv : list (NumericAttr D)) :
  dataset_ok ni fb labels fv -> (200 <= fuel)%nat ->
  let nf := Z.of_nat (length fv) in
  exists (fb' : list D) (st : State D) (n : nat),
    let start := init_state junk ni fb' labels nf in
    normalize fv fb ni = Done (fv, fb')
    /\ main fuel junk ni fb labels fv = Done st
    /\ gradient_descent fuel nf start = Done st
    /\ iterate n nf start = Done st
    /\ (2 <= n <= 200)%nat /\ iter st = Z.of_nat n
    /\ well_formed nf start /\ well_formed nf st.
Proof.
  intros Hds Hfuel nf.
  destruct (main_setup fuel junk ni fb labels fv Hds) as (fb' & Hnorm & Hmain & Hwf).
  fold nf in Hmain, Hwf.
  destruct (gradient_descent_total nf 200 _ Hwf eq_refl (le_n _))
    as (s1 & st & _ & _ & Hrun & _ & Hwf' & Hiter).
  destruct (gradient_descent_iterate nf 200 _ st Hrun)
    as (n & Hn & Hit & _).
  pose proof (iterate_counter nf n _ st Hit) as Hcount.
  cbn [init_state iter] in Hcount. unfold maxIter in Hiter.
  specialize (Hcount ltac:(unfold UInt.modulus; lia) ltac:(lia)).
  pose proof (gradient_descent_more_fuel nf 200 _ st fuel Hrun Hfuel) as Hrun'.
  exists fb', st, n. cbv zeta.
  split; [exact Hnorm|]. split; [now rewrite Hmain|].
  split; [exact Hrun'|]. split; [exact Hit|]. split; [lia|].
  split; [lia|]. split; assumption.
Qed.

(** X6.  On a well-sized data set [main] prints one weight per iteration:
    the number of values printed equals the final iteration count, and the
    first of them is the initial weight, the double with representation
    0x0101010101010101. *)
Theorem main_prints_each_iteration (fuel : nat) (junk : nat -> D) (ni : Z)
    (fb : list D) (labels : list Z) (fv : list (NumericAttr D)) :
  dataset_ok ni fb labels fv -> (200 <= fuel)%nat ->
  exists (st : State D) (rest : list D),
    main fuel junk ni fb labels fv = Done st
    /\ Z.of_nat (length (stdout st)) = iter st
    /\ stdout st = of_bits 0x0101010101010101 :: rest.
Proof.
  intros Hds Hfuel.
  destruct (main_run fuel junk ni fb labels fv Hds Hfuel)
    as (fb' & st & n & _ & Hmain & _ & Hit & Hn & Hi & _).
  destruct (iterate_stdout _ n _ st Hit) as (Hlen & Hhead).
  destruct (Hhead (of_bits 0x0101010101010101)) as (rest & Hout); [|lia|].
  { cbn [init_state node]. destruct Hds.
    rewrite initNode_repeat by (unfold UInt.modulus in *; lia).
    apply repeat_lookup. lia. }
  exists st, rest. split; [exact Hmain|]. split.
  - rewrite Hlen. cbn [init_state stdout length]. lia.
  - exact Hout.
Qed.

(** X7.  On a well-sized data set [main] ends with the matrix as
    [normalize] left it, the class indices as the importer gave them, a
    weight block of [numFeatures + 1] entries, and a bias that is still the
    value [initNode] gave it: training never learns the bias. *)
Theorem main_final_state (fuel : nat) (junk : nat -> D) (ni : Z)
    (fb : list D) (labels : list Z) (fv : list (NumericAttr D)) :
  dataset_ok ni fb labels fv -> (200 <= fuel)%nat ->
  exists (fb' : list D) (st : State D),
    normalize fv fb ni = Done (fv, fb')
    /\ main fuel junk ni fb labels fv = Done st
    /\ featureBuff st = fb'
    /\ classIndexBuff st = labels
    /\ length (weights (node st)) = Datatypes.S (length fv)
    /\ weights (node st) !! length fv = Some (of_bits 0x0101010101010101).
Proof.
  intros Hds Hfuel.
  destruct (main_run fuel junk ni fb labels fv Hds Hfuel)
    as (fb' & st & n & Hnorm & Hmain & Hrun & _ & _ & _ & Hwf & Hwf').
  destruct (gradient_descent_frame _ fuel _ st Hrun) as (Hfb & Hlab & _).
  pose proof (gradient_descent_bias _ fuel _ st Hwf Hrun) as Hbias.
  exists fb', st. split; [exact Hnorm|]. split; [exact Hmain|].
  split; [exact Hfb|]. split; [exact Hlab|]. split.
  - destruct Hwf'. lia.
  - rewrite Nat2Z.id in Hbias. rewrite Hbias. cbn [init_state node].
    destruct Hds. rewrite initNode_repeat by (unfold UInt.modulus in *; lia).
    apply repeat_lookup. lia.
Qed.

End Edges.

(** ** Exact arithmetic: the range of normalized values and the sign of
    the cost *)

(** X8.  In exact arithmetic, for a descriptor with [min < max] and
    [min <= mean <= max] whose column values all lie between [min] and
    [max], every value of the column lies between -1 and 1 after
    [normalize]. *)
Theorem normalize_within_unit (fv : list (NumericAttr R)) (fb : list R)
    (ni : Z) (i : nat) (attr : NumericAttr R) :
  0 <= ni ->
  Z.of_nat (length fv) < UInt.modulus ->
  ni * Z.of_nat (length fv) < UInt.modulus ->
  Z.of_nat (length fb) = ni * Z.of_nat (length fv) ->
  fv !! i = Some attr ->
  (min attr < max attr)%R ->
  (min attr <= mean attr <= max attr)%R ->
  (forall (j : nat) (v : R),
     fb !! (j * length fv + i)%nat = Some v -> (min attr <= v <= max attr)%R) ->
  exists fb',
    normalize fv fb ni = Done (fv, fb')
    /\ forall (j : nat) (v' : R),
         fb' !! (j * length fv + i)%nat = Some v' -> (-1 <= v' <= 1)%R.
Proof.
  intros Hni Hnf Hmod Hlen Hattr Hrange Hmean Hcol.
  destruct (normalize_spec fv fb ni Hni Hnf Hmod Hlen) as (fb' & Hrun & Hl & Hpt).
  exists fb'. split; [exact Hrun|]. intros j v' Hv'.
  destruct (lookup_lt_is_Some_2 fb (j * length fv + i)) as [v Hv].
  { rewrite <- Hl. now apply lookup_lt_Some in Hv'. }
  rewrite (Hpt i j attr v Hattr Hv) in Hv'. inversion Hv'; subst v'.
  specialize (Hcol j v Hv). unfold normalized.
  cbn [deqb dsub ddiv lit Exact.double].
  destruct (Req_dec_T _ _) as [He|_]; [lra|].
  assert (Hpos : (0 < max attr - min attr)%R) by lra.
  split.
  - apply (Rmult_le_reg_r (max attr - min attr)); [exact Hpos|].
    unfold Rdiv. rewrite Rmult_assoc, Rinv_l by lra. lra.
  - apply (Rmult_le_reg_r (max attr - min attr)); [exact Hpos|].
    unfold Rdiv. rewrite Rmult_assoc, Rinv_l by lra. lra.
Qed.

Lemma computeCost_positive (h : R) (y : Z) :
  (0 < h < 1)%R -> (0 < computeCost h y)%R.
Proof.
  intros Hh. unfold computeCost. cbn [dneg dlog dsub lit Exact.double].
  destruct (negb (y =? 0)).
  - assert (ln h < ln 1)%R by (apply ln_increasing; lra). rewrite ln_1 in *. lra.
  - assert (ln (1 - h) < ln 1)%R by (apply ln_increasing; lra).
    rewrite ln_1 in *. lra.
Qed.

Lemma pass_cost_grows (ws : list R) (l : list (list R * Z)) :
  forall acc : R * list R,
  (acc.1 <= (fold_left (row_step_with computeCost ws) l acc).1)%R
  /\ (l <> [] -> acc.1 < (fold_left (row_step_with computeCost ws) l acc).1)%R.
Proof.
  induction l as [|inst l IH]; intros acc.
  - cbn. split; [lra | congruence].
  - cbn [fold_left].
    destruct (IH (row_step_with computeCost ws acc inst)) as (Hle & _).
    assert (Hstep : (acc.1 < (row_step_with computeCost ws acc inst).1)%R).
    { unfold row_step_with. cbn [fst dadd Exact.double].
      pose proof (computeCost_positive (Activate ws inst.1) inst.2
                    (sigmoid_bounds _)). lra. }
    split; [lra | intros _; lra].
Qed.

(** X9.  In exact arithmetic the cost an iteration sums is never negative,
    and is positive as soon as there is an instance.  So the first delta,
    [0 - cost], never exceeds the threshold: the loop test after the first
    iteration holds through [iter == 1] alone. *)
Theorem cost_is_positive (nf : Z) (st : State R) :
  well_formed nf st ->
  exists st',
    iteration nf st = Done st'
    /\ (0 <= costSumPre st')%R
    /\ (0 < numInst st -> (0 < costSumPre st')%R)
    /\ (costSumPre st = 0%R ->
        (deltaCostSum st' <= 0)%R
        /\ dgtb (deltaCostSum st') (lit 1) = false).
Proof.
  intros Hwf.
  destruct (iteration_spec nf st Hwf) as (nd & w0 & Hit & _).
  cbv zeta in Hit. eexists. split; [exact Hit|].
  cbn [next_state costSumPre deltaCostSum]. unfold pass_with.
  set (l := zip _ _).
  destruct (pass_cost_grows (weights (node st)) l
              (lit 0, repeat (lit 0) (Z.to_nat nf))) as (Hle & Hlt).
  cbn [fst lit Exact.double] in Hle, Hlt.
  split; [exact Hle|]. split.
  - intros Hpos. apply Hlt. intros Hnil.
    apply (f_equal length) in Hnil. unfold l in Hnil.
    rewrite length_zip_with, rows_length in Hnil. destruct Hwf. cbn in Hnil. lia.
  - intros H0. rewrite H0. cbn [dsub dgtb lit Exact.double].
    split; [lra|]. destruct (Rlt_dec _ _); [lra | reflexivity].
Qed.

(** ** Binary64: an empty data set *)

Lemma sub_nan (w : float) : (w - nan)%float = nan.
Proof.
  apply Prim2SF_inj. rewrite sub_spec.
  change (Prim2SF nan) with S754_nan.
  now destruct (Prim2SF w).
Qed.

Lemma descend_no_instances (m : Binary64.Libm) (w : float) :
  descend (H := Binary64.double m) 0 w (lit (Double := Binary64.double m) 0)
  = nan.
Proof.
  unfold descend, alpha. cbn [dsub dmul ddiv lit Binary64.double].
  change (Binary64.of_Z 50 / Binary64.of_Z 0 * Binary64.of_Z 0)%float with nan.
  apply sub_nan.
Qed.

Lemma zip_descend_no_instances (m : Binary64.Libm) (n : nat) :
  forall ws : list float,
  (n <= length ws)%nat ->
  zip_with (descend (H := Binary64.double m) 0) ws
    (repeat (lit (Double := Binary64.double m) 0) n)
  = repeat nan n.
Proof.
  induction n as [|n IH]; intros [|w ws] Hlen; cbn [length] in Hlen; try lia;
    try reflexivity.
  cbn [repeat zip_with]. rewrite descend_no_instances, IH by lia. reflexivity.
Qed.

Lemma empty_iteration (m : Binary64.Libm) (nf : Z) (st : State float) :
  well_formed nf st -> numInst st = 0 ->
  exists st',
    iteration (H := Binary64.double m) nf st = Done st'
    /\ well_formed nf st' /\ numInst st' = 0
    /\ iter st' = UInt.add (iter st) 1
    /\ costSumPre st' = 0%float
    /\ deltaCostSum st' = (costSumPre st - 0)%float
    /\ weights (node st')
       = repeat nan (Z.to_nat nf) ++ drop (Z.to_nat nf) (weights (node st)).
Proof.
  intros Hwf Hni.
  destruct (iteration_spec (H := Binary64.double m) nf st Hwf)
    as (nd & w0 & Hit & Hw & Hn & _ & Hg).
  cbv zeta in Hit, Hg. unfold pass_with in Hit, Hg.
  rewrite Hni in Hit, Hg. change (Z.to_nat 0) with 0%nat in Hit, Hg.
  cbn [rows zip_with fold_left fst snd] in Hit, Hg.
  eexists. split; [exact Hit|].
  split; [apply next_state_well_formed; [exact Hwf | exact Hn | exact Hg]|].
  cbn [next_state numInst iter costSumPre deltaCostSum node set_weights weights].
  split; [exact Hni|]. split; [reflexivity|]. split; [reflexivity|].
  split; [reflexivity|].
  rewrite Hni, repeat_length, zip_descend_no_instances; [reflexivity|].
  destruct Hwf. lia.
Qed.

(** X10.  In binary64, whatever [exp] and [log] are: on a data set with no
    instances [main] runs the loop body exactly twice, and every feature
    weight ends as NaN ([alpha / 0 * 0] is NaN) while the bias keeps its
    initial value. *)
Theorem empty_dataset_weights (m : Binary64.Libm) (fuel : nat)
    (junk : nat -> float) (fv : list (NumericAttr float)) :
  Z.of_nat (length fv) + 1 < UInt.modulus -> (2 <= fuel)%nat ->
  exists st : State float,
    main (H := Binary64.double m) fuel junk 0 [] [] fv = Done st
    /\ iter st = 2
    /\ weights (node st)
       = repeat nan (length fv) ++ [0x1.1010101010101p-1007%float].
Proof.
  intros Hnf Hfuel. set (nf := Z.of_nat (length fv)).
  unfold main. rewrite normalize_no_instances. step.
  rewrite wrap_small by lia. fold nf.
  set (start := init_state junk 0 [] [] nf).
  assert (Hwf : well_formed nf start).
  { apply init_state_well_formed; unfold nf; cbn [length]; lia. }
  destruct (empty_iteration m nf start Hwf eq_refl)
    as (s1 & H1 & Hwf1 & Hni1 & Hi1 & Hc1 & _ & Hw1).
  destruct (empty_iteration m nf s1 Hwf1 Hni1)
    as (s2 & H2 & _ & _ & Hi2 & _ & Hd2 & Hw2).
  destruct fuel as [|[|fuel]]; try lia.
  cbn [gradient_descent]. rewrite H1. step.
  assert (Hcont1 : continue (H := Binary64.double m) s1 = true).
  { unfold continue. rewrite Hi1. reflexivity. }
  rewrite Hcont1, H2. step.
  assert (Hcont2 : continue (H := Binary64.double m) s2 = false).
  { unfold continue. rewrite Hi2, Hi1, Hd2, Hc1. reflexivity. }
  rewrite Hcont2. exists s2. split; [reflexivity|].
  split; [rewrite Hi2, Hi1; reflexivity|].
  rewrite Hw2, Hw1. unfold start. cbn [init_state node].
  rewrite (initNode_repeat (H := Binary64.double m)) by (unfold UInt.modulus in *; lia).
  unfold nf. rewrite Nat2Z.id.
  rewrite drop_app_length' by now rewrite repeat_length.
  replace (Z.to_nat (Z.of_nat (length fv) + 1)) with (length fv + 1)%nat by lia.
  rewrite repeat_app, drop_app_length' by now rewrite repeat_length.
  reflexivity.
Qed.

(** ** The further properties at the sample data *)

Lemma normalize_constant_columns_witness :
  normalize Sample.constant_descriptors Sample.constant_matrix 2
  = Done (Sample.constant_descriptors, Sample.constant_matrix).
Proof.
  apply normalize_constant_columns.
  constructor; [vm_compute; reflexivity | constructor].
Defined.

Lemma activate_row_out_of_bounds_witness :
  activate (mkNode 1 [2; 0]%float None None) [] 0 = Undefined.
Proof.
  apply activate_row_out_of_bounds; by_computation.
Defined.

Lemma short_label_buffer_witness :
  iteration 1 Sample.short_labels = Undefined
  /\ forall fuel : nat,
       gradient_descent (Datatypes.S fuel) 1 Sample.short_labels = Undefined.
Proof.
  apply short_label_buffer; by_computation.
Defined.

Lemma iteration_leaves_last_activation_witness :
  exists st',
    iteration 1 Sample.start = Done st'
    /\ inputs (node st') = Some 3
    /\ output (node st')
       = Some (Activate (weights (node Sample.start)) [0.5%float]).
Proof.
  exact (iteration_leaves_last_activation 1 Sample.start
           sample_start_well_formed ltac:(by_computation)).
Defined.

Lemma main_prints_each_iteration_witness :
  exists (st : State float) (rest : list float),
    main 200 Sample.junk 4 Sample.matrix Sample.labels Sample.descriptors
    = Done st
    /\ Z.of_nat (length (stdout st)) = iter st
    /\ stdout st = 0x1.1010101010101p-1007%float :: rest.
Proof.
  exact (main_prints_each_iteration 200 Sample.junk 4 Sample.matrix
           Sample.labels Sample.descriptors sample_dataset_ok (le_n 200)).
Defined.

Lemma main_final_state_witness :
  exists (fb' : list float) (st : State float),
    normalize Sample.descriptors Sample.matrix 4
    = Done (Sample.descriptors, fb')
    /\ main 200 Sample.junk 4 Sample.matrix Sample.labels Sample.descriptors
       = Done st
    /\ featureBuff st = fb'
    /\ classIndexBuff st = Sample.labels
    /\ length (weights (node st)) = 2%nat
    /\ weights (node st) !! 1%nat = Some 0x1.1010101010101p-1007%float.
Proof.
  exact (main_final_state 200 Sample.junk 4 Sample.matrix Sample.labels
           Sample.descriptors sample_dataset_ok (le_n 200)).
Defined.

Lemma normalize_within_unit_witness :
  exists fb',
    normalize Sample.exact_descriptors Sample.exact_matrix 3
    = Done (Sample.exact_descriptors, fb')
    /\ forall (j : nat) (v' : R),
         fb' !! (j * 1 + 0)%nat = Some v' -> (-1 <= v' <= 1)%R.
Proof.
  apply (normalize_within_unit Sample.exact_descriptors Sample.exact_matrix
           3 0 (mkNumericAttr [Byte.x66; Byte.x31] 1%R 5%R 3%R));
    try by_computation.
  - cbn. lra.
  - cbn. lra.
  - intros j v. destruct j as [|[|[|j]]]; cbn; intros Hv;
      try discriminate; inversion Hv; lra.
Defined.

Lemma sample_exact_start_well_formed : well_formed 1 Sample.exact_start.
Proof.
  apply init_state_well_formed; by_computation.
Defined.

Lemma cost_is_positive_witness :
  exists st',
    iteration 1 Sample.exact_start = Done st'
    /\ (0 < costSumPre st')%R
    /\ dgtb (deltaCostSum st') (lit 1) = false.
Proof.
  destruct (cost_is_positive 1 Sample.exact_start
              sample_exact_start_well_formed)
    as (st' & Hrun & _ & Hpos & Hfirst).
  exists st'. split; [exact Hrun|]. split.
  - apply Hpos. by_computation.
  - apply Hfirst. reflexivity.
Defined.

Lemma empty_dataset_weights_witness :
  exists st : State float,
    main 2 Sample.junk 0 [] [] Sample.descriptors = Done st
    /\ iter st = 2
    /\ weights (node st) = [nan; 0x1.1010101010101p-1007%float].
Proof.
  exact (empty_dataset_weights Binary64.Reference.libm 2 Sample.junk
           Sample.descriptors ltac:(by_computation) (le_n 2)).
Defined.
